(** * Provider side of the data-platform relation libraries

    A shallow embedding of
    [lib/charms/data_platform_libs/v0/resource_provides.py],
    [database_provides.py], [kafka_provides.py] and [zookeeper_provides.py]:
    the diff engine [_diff], the leader-gated writer [_update_relation_data]
    with the capability setters built on it, the three [_on_relation_changed]
    handlers, the payload accessors of the typed events, and the [class]
    statements that build the classes when a module is imported.

    Conventions.
    - A databag is a [gmap string string] read as a [dict] ([get], [items]).
      A write goes through the databag of the framework, where a field written
      with the empty string removes its key ([bag_update]); the snapshot
      written by [_diff] is never empty, so there the write is an insertion.
      The access checks of the framework are not modelled. A Python [str] held
      in a databag is a Rocq [string] whose characters are the code points
      0..255, and [items] runs over the entries in the order of
      [map_to_list].
    - [relation.data] is a map from entity name (application or unit) to
      databag, so two lookups with the same entity see the same bag.
    - A call yields an [outcome]: a returned value or a raised exception.
      State is passed explicitly: each operation returns the relation (or the
      model) as it leaves it. *)

From Stdlib Require Import String Ascii List NArith ZArith Lia Bool.
From stdpp Require Import gmap strings list fin_maps.

Local Open Scope string_scope.
#[local] Set Warnings "-clear-no-such-hyp".

(** ** The [json] codec of the standard library

    [json.loads] and [json.dumps] are library code; this is a model of the
    grammar they accept and of the text they emit with the default options
    ([ensure_ascii=True], separators [", "] and [": "], [strict=True]).
    Decoded strings are sequences of code points, because an escape
    [\uXXXX] can name a code point that no databag string of the model holds.
    Numbers keep their lexeme: the program only ever compares decoded values
    with strings. Interpreter limits (recursion depth, integer digits) are not
    modelled. *)
Module Json.

#[local] Unset Elimination Schemes.
Inductive value : Type :=
| Null
| Bool (b : bool)
| Number (lexeme : string)
| Str (s : list N)
| Array (items : list value)
| Object (pairs : list (list N * value)).
#[local] Set Elimination Schemes.

(** Code points of a databag string. *)
Fixpoint wide (s : string) : list N :=
  match s with
  | EmptyString => []
  | String c r => N_of_ascii c :: wide r
  end.

(** *** Encoder *)

Definition hexdigit (n : N) : ascii :=
  if (n <? 10)%N then ascii_of_N (48 + n) else ascii_of_N (87 + n).

(** [ESCAPE_DCT] and the [\uXXXX] fallback of [py_encode_basestring_ascii]. *)
Definition escape (c : ascii) : string :=
  let n := N_of_ascii c in
  if (n =? 34)%N then String "\" (String "034" EmptyString)
  else if (n =? 92)%N then "\\"
  else if (n =? 10)%N then "\n"
  else if (n =? 13)%N then "\r"
  else if (n =? 9)%N then "\t"
  else if (n =? 8)%N then "\b"
  else if (n =? 12)%N then "\f"
  else if ((32 <=? n) && (n <=? 126))%N then String c EmptyString
  else String "\" (String "u" (String "0" (String "0"
         (String (hexdigit (n / 16)) (String (hexdigit (n mod 16)) EmptyString))))).

Fixpoint escape_all (s : string) : string :=
  match s with
  | EmptyString => EmptyString
  | String c r => escape c ++ escape_all r
  end.

Definition quote (s : string) : string :=
  String "034" (escape_all s ++ String "034" EmptyString).

Definition dump_item (kv : string * string) : string :=
  quote kv.1 ++ ": " ++ quote kv.2.

Fixpoint dump_items (l : list (string * string)) : string :=
  match l with
  | [] => EmptyString
  | [kv] => dump_item kv
  | kv :: r => dump_item kv ++ ", " ++ dump_items r
  end.

(** [json.dumps(d)] for a [dict] of [str] to [str]. *)
Definition dumps (d : gmap string string) : string :=
  "{" ++ dump_items (map_to_list d) ++ "}".

(** *** Decoder *)

Definition is_ws (c : ascii) : bool :=
  let n := N_of_ascii c in
  ((n =? 32) || (n =? 9) || (n =? 10) || (n =? 13))%N.

Fixpoint skip_ws (s : string) : string :=
  match s with
  | String c r => if is_ws c then skip_ws r else s
  | EmptyString => s
  end.

Definition is_digit (c : ascii) : bool :=
  let n := N_of_ascii c in ((48 <=? n) && (n <=? 57))%N.

Definition unhex (c : ascii) : option N :=
  let n := N_of_ascii c in
  if ((48 <=? n) && (n <=? 57))%N then Some (n - 48)%N
  else if ((97 <=? n) && (n <=? 102))%N then Some (n - 87)%N
  else if ((65 <=? n) && (n <=? 70))%N then Some (n - 55)%N
  else None.

(** [_decode_uXXXX] on the four characters after [\u]. *)
Definition hex4 (a b c d : ascii) : option N :=
  match unhex a, unhex b, unhex c, unhex d with
  | Some x, Some y, Some z, Some t => Some (((x * 16 + y) * 16 + z) * 16 + t)%N
  | _, _, _, _ => None
  end.

Definition is_high_surrogate (n : N) : bool := ((55296 <=? n) && (n <=? 56319))%N.
Definition is_low_surrogate (n : N) : bool := ((56320 <=? n) && (n <=? 57343))%N.
Definition join_surrogates (hi lo : N) : N :=
  (65536 + N.lor (N.shiftl (hi - 55296) 10) (lo - 56320))%N.

(** [scanstring] with [strict=True], entered after the opening quote: the
    decoded code points and the text after the closing quote. A raw control
    character, an unknown escape, a malformed [\uXXXX] and a missing closing
    quote are errors. A high surrogate escape directly followed by a low
    surrogate escape is one code point. *)
Fixpoint scanstring (s : string) : option (list N * string) :=
  match s with
  | EmptyString => None
  | String c r =>
      let n := N_of_ascii c in
      if (n =? 34)%N then Some ([], r)
      else if (n <? 32)%N then None
      else if (n =? 92)%N then
        match r with
        | EmptyString => None
        | String e r0 =>
            let put (n : N) (t : string) :=
              match scanstring t with
              | Some (w, r') => Some (n :: w, r')
              | None => None
              end in
            let k := N_of_ascii e in
            if (k =? 34)%N then put 34%N r0
            else if (k =? 92)%N then put 92%N r0
            else if (k =? 47)%N then put 47%N r0
            else if (k =? 98)%N then put 8%N r0
            else if (k =? 102)%N then put 12%N r0
            else if (k =? 110)%N then put 10%N r0
            else if (k =? 114)%N then put 13%N r0
            else if (k =? 116)%N then put 9%N r0
            else if (k =? 117)%N then
              match r0 with
              | String a (String b (String c (String d r1))) =>
                  match hex4 a b c d with
                  | None => None
                  | Some hi =>
                      if is_high_surrogate hi then
                        match r1 with
                        | String e1 (String e2 r2) =>
                            if (e1 =? "\")%char && (e2 =? "u")%char then
                              match r2 with
                              | String a' (String b' (String c' (String d' r3))) =>
                                  match hex4 a' b' c' d' with
                                  | None => None
                                  | Some lo =>
                                      if is_low_surrogate lo
                                      then put (join_surrogates hi lo) r3
                                      else put hi r1
                                  end
                              | _ => None
                              end
                            else put hi r1
                        | _ => put hi r1
                        end
                      else put hi r1
                  end
              | _ => None
              end
            else None
        end
      else match scanstring r with
           | Some (w, r') => Some (n :: w, r')
           | None => None
           end
  end.

(** [NUMBER_RE], matched as a prefix: an optional minus sign, then [0] or a
    digit string without leading zero, then optionally a dot with digits, then
    optionally an exponent. The lexeme and the text after it. *)
Fixpoint span_digits (s : string) : string * string :=
  match s with
  | String c r =>
      if is_digit c
      then let '(ds, r') := span_digits r in (String c ds, r')
      else (EmptyString, s)
  | EmptyString => (EmptyString, s)
  end.

Definition match_int (s : string) : option (string * string) :=
  match s with
  | String c r =>
      if (N_of_ascii c =? 48)%N then Some ("0", r)
      else if is_digit c
      then let '(ds, r') := span_digits r in Some (String c ds, r')
      else None
  | EmptyString => None
  end.

Definition match_frac (s : string) : string * string :=
  match s with
  | String c r =>
      if (c =? ".")%char then
        match span_digits r with
        | (EmptyString, _) => (EmptyString, s)
        | (ds, r') => (String c ds, r')
        end
      else (EmptyString, s)
  | EmptyString => (EmptyString, s)
  end.

Definition match_sign (s : string) : string * string :=
  match s with
  | String c t =>
      if ((c =? "+") || (c =? "-"))%char then (String c EmptyString, t)
      else (EmptyString, s)
  | EmptyString => (EmptyString, s)
  end.

Definition match_exp (s : string) : string * string :=
  match s with
  | String e r =>
      if ((e =? "e") || (e =? "E"))%char then
        let '(sign, r1) := match_sign r in
        match span_digits r1 with
        | (EmptyString, _) => (EmptyString, s)
        | (ds, r') => (String e (sign ++ ds), r')
        end
      else (EmptyString, s)
  | EmptyString => (EmptyString, s)
  end.

Definition match_number (s : string) : option (string * string) :=
  let '(sign, s1) :=
    match s with
    | String c r => if (c =? "-")%char then (String c EmptyString, r) else (EmptyString, s)
    | EmptyString => (EmptyString, s)
    end in
  match match_int s1 with
  | None => None
  | Some (i, s2) =>
      let '(f, s3) := match_frac s2 in
      let '(e, s4) := match_exp s3 in
      Some (sign ++ i ++ f ++ e, s4)
  end.

(** [s] without the prefix [p], when it starts with it. *)
Fixpoint strip_prefix (p s : string) : option string :=
  match p, s with
  | EmptyString, _ => Some s
  | String a p', String b s' => if Ascii.eqb a b then strip_prefix p' s' else None
  | String _ _, EmptyString => None
  end.

(** The values that are neither a string, an object nor an array: [null],
    [true], [false], a number, [NaN], [Infinity], [-Infinity]. *)
Definition scan_literal (s : string) : option (value * string) :=
  match strip_prefix "null" s, strip_prefix "true" s, strip_prefix "false" s with
  | Some r, _, _ => Some (Null, r)
  | _, Some r, _ => Some (Bool true, r)
  | _, _, Some r => Some (Bool false, r)
  | None, None, None =>
      match match_number s with
      | Some (lexeme, r) => Some (Number lexeme, r)
      | None =>
          match strip_prefix "NaN" s, strip_prefix "Infinity" s,
                strip_prefix "-Infinity" s with
          | Some r, _, _ => Some (Number "NaN", r)
          | _, Some r, _ => Some (Number "Infinity", r)
          | _, _, Some r => Some (Number "-Infinity", r)
          | None, None, None => None
          end
      end
  end.

(** The scanner ([scan_once], [JSONObject], [JSONArray]), a chain of tests on
    the next character. [scan_members] is entered after the opening quote of
    a key and [scan_items] at the start of an item. A call uses at most two
    units of [fuel] for a character it consumes ([scan_fuel_irrelevant]
    below), so [loads] never runs out of it. *)
Fixpoint scan_once (fuel : nat) (s : string) : option (value * string) :=
  match fuel, s with
  | O, _ | _, EmptyString => None
  | S fuel, String c r =>
      if (c =? "034")%char then
        match scanstring r with
        | Some (w, r') => Some (Str w, r')
        | None => None
        end
      else if (c =? "{")%char then
        match skip_ws r with
        | String c' r' =>
            if (c' =? "}")%char then Some (Object [], r')
            else if (c' =? "034")%char then
              match scan_members fuel r' with
              | Some (ps, r'') => Some (Object ps, r'')
              | None => None
              end
            else None
        | EmptyString => None
        end
      else if (c =? "[")%char then
        match skip_ws r with
        | String c' r' =>
            if (c' =? "]")%char then Some (Array [], r')
            else
              match scan_items fuel (String c' r') with
              | Some (vs, r'') => Some (Array vs, r'')
              | None => None
              end
        | EmptyString => None
        end
      else scan_literal s
  end
with scan_members (fuel : nat) (s : string) : option (list (list N * value) * string) :=
  match fuel with
  | O => None
  | S fuel =>
      match scanstring s with
      | None => None
      | Some (key, r) =>
          match skip_ws r with
          | String c r1 =>
              if (c =? ":")%char then
                match scan_once fuel (skip_ws r1) with
                | None => None
                | Some (v, r2) =>
                    match skip_ws r2 with
                    | String c2 r3 =>
                        if (c2 =? "}")%char then Some ([(key, v)], r3)
                        else if (c2 =? ",")%char then
                          match skip_ws r3 with
                          | String c4 r4 =>
                              if (c4 =? "034")%char then
                                match scan_members fuel r4 with
                                | Some (ps, r5) => Some ((key, v) :: ps, r5)
                                | None => None
                                end
                              else None
                          | EmptyString => None
                          end
                        else None
                    | EmptyString => None
                    end
                end
              else None
          | EmptyString => None
          end
      end
  end
with scan_items (fuel : nat) (s : string) : option (list value * string) :=
  match fuel with
  | O => None
  | S fuel =>
      match scan_once fuel s with
      | None => None
      | Some (v, r) =>
          match skip_ws r with
          | String c r1 =>
              if (c =? "]")%char then Some ([v], r1)
              else if (c =? ",")%char then
                match scan_items fuel (skip_ws r1) with
                | Some (vs, r2) => Some (v :: vs, r2)
                | None => None
                end
              else None
          | EmptyString => None
          end
      end
  end.

(** [json.loads]: one value between optional white space, and nothing after
    it. [None] stands for [JSONDecodeError]. *)
Definition loads (s : string) : option value :=
  match scan_once (S (2 * String.length s)) (skip_ws s) with
  | Some (v, r) =>
      match skip_ws r with
      | EmptyString => Some v
      | String _ _ => None
      end
  | None => None
  end.

(** The decoded form of a databag entry. *)
Definition decoded (kv : string * string) : list N * value :=
  (wide kv.1, Str (wide kv.2)).

End Json.


(** ** Exceptions and outcomes *)

Inductive exn : Type :=
| JSONDecodeError
| AttributeError (attr : string)
| KeyError (key : string)
| ModelError (relation_id : Z).

Inductive outcome (A : Type) : Type :=
| Returned (a : A)
| Raised (e : exn).
Arguments Returned {A} a.
Arguments Raised {A} e.

(** ** The framework objects the library works on *)

(** [ops.model.Unit]: [is_leader] is what [self.local_unit.is_leader()]
    answers at the time of the call. *)
Record Unit : Type := { unit_name : string; is_leader : bool }.

(** [ops.model.Relation]: [rel_app] is the remote application and [rel_data]
    is [relation.data], indexed by entity name. *)
Record Relation : Type := {
  rel_id : Z;
  rel_app : string;
  rel_data : gmap string (gmap string string)
}.

(** The same relation holding [data]: a write to a databag replaces the bag
    stored under its entity. *)
Definition with_data (rel : Relation) (data : gmap string (gmap string string)) : Relation :=
  {| rel_id := rel_id rel; rel_app := rel_app rel; rel_data := data |}.

(** [ops.charm.RelationChangedEvent]; the state of [event.relation] is passed
    next to the event. [unit] is [None] when the application bag changed. *)
Record RelationChangedEvent : Type := { app : string; unit : option string }.

(** The three provider classes. *)
Inductive Flavor : Type := Database | Kafka | Zookeeper.

(** A provider object ([BaseResourceProvides.__init__]). *)
Record Provider : Type := {
  flavor : Flavor;
  local_app : string;
  local_unit : Unit;
  relation_name : string
}.

(** The relations of [self.relation_name] known to [charm.model], by id. *)
Abbreviation Model := (gmap Z Relation).

(** ** The diff engine *)

(** [Diff = namedtuple("Diff", "added changed deleted")]; the members are sets
    of Python strings. *)
Record Diff : Type := {
  added : gset (list N);
  changed : gset (list N);
  deleted : gset (list N)
}.

(** [dict(pairs)] as the decoder builds it: a later pair replaces an earlier
    one with the same key. *)
Definition dict_of_pairs (pairs : list (list N * Json.value)) : gmap (list N) Json.value :=
  foldl (λ d kv, <[kv.1 := kv.2]> d) ∅ pairs.

(** [old_data[key] != new_data[key]], the left operand a decoded value and the
    right one a [str] of the databag: only the same [str] compares equal. *)
Definition differs (old_value : option Json.value) (new_value : option string) : bool :=
  match old_value, new_value with
  | Some (Json.Str w), Some s => negb (bool_decide (w = Json.wide s))
  | Some _, Some _ => true
  | _, _ => false
  end.

(** [{key: value for key, value in bag.items() if key != "data"}]. *)
Definition without_data (bag : gmap string string) : gmap string string :=
  filter (λ kv, kv.1 ≠ "data") bag.

(** [BaseResourceProvides._diff]. Nothing is written before the last
    statement, so a raised exception leaves the relation as it was. *)
Definition _diff (self : Provider) (event : RelationChangedEvent) (rel : Relation)
  : outcome (Diff * Relation) :=
  match rel_data rel !! local_app self with
  | None => Raised (KeyError (local_app self))
  | Some own =>
      match Json.loads (default "{}" (own !! "data")) with
      | None => Raised JSONDecodeError
      | Some old =>
          match rel_data rel !! app event with
          | None => Raised (KeyError (app event))
          | Some peer =>
              let new_data := without_data peer in
              match old with
              | Json.Object pairs =>
                  let old_data := dict_of_pairs pairs in
                  let new_keyed : gmap (list N) string := kmap Json.wide new_data in
                  let added := dom new_keyed ∖ dom old_data in
                  let deleted := dom old_data ∖ dom new_keyed in
                  let changed :=
                    filter (λ key, differs (old_data !! key) (new_keyed !! key) = true)
                           (dom old_data ∩ dom new_keyed) in
                  let own' := {[ "data" := Json.dumps new_data ]} ∪ own in
                  Returned ({| added := added; changed := changed; deleted := deleted |},
                            with_data rel (<[local_app self := own']> (rel_data rel)))
              | _ => Raised (AttributeError "keys")
              end
          end
      end
  end.

(** ** Typed events and their derivation *)

(** The event classes: [DatabaseRequestedEvent], [TopicCreatedEvent] and
    [ZNodeCreatedEvent]. *)
Inductive EventKind : Type :=
| DatabaseRequestedEvent
| TopicCreatedEvent
| ZNodeCreatedEvent.

(** An emitted event, [kind(handle, relation, app=..., unit=...)]: it refers to
    the relation (here by id) and keeps no copy of any databag. *)
Record TypedEvent : Type := {
  kind : EventKind;
  relation : Z;
  event_app : string;
  event_unit : option string
}.

(** The [EventSource] attributes of the events class bound to [on]:
    [DatabaseEvents], [KafkaEvents], [ZookeeperEvents]. *)
Definition event_sources (f : Flavor) : list (string * EventKind) :=
  match f with
  | Database => [("database_requested", DatabaseRequestedEvent)]
  | Kafka => [("topic_created", TopicCreatedEvent)]
  | Zookeeper => [("znode_created", ZNodeCreatedEvent)]
  end.

(** The names a provider object answers to: what [__init__] sets, what
    [ops.framework.Object] sets, and what the classes on its resolution
    order define. Event sources are not among them: they live on [on]. *)
Definition provider_attributes (f : Flavor) : list string :=
  ["charm"; "local_app"; "local_unit"; "relation_name"; "events";
   "framework"; "handle"; "model"; "on"; "relations";
   "_on_relation_changed"; "_diff"; "fetch_relation_data"; "_update_relation_data";
   "set_version"; "set_credentials"; "set_tls"; "set_tls_ca"]
  ++ match f with
     | Database => ["set_endpoints"; "set_read_only_endpoints"; "set_replset"; "set_uris"]
     | Kafka | Zookeeper => []
     end.

(** The receiver of [.emit] as the handler spells it: [self.on.<name>] or
    [self.<name>]. *)
Inductive emitter : Type :=
| SelfOn (name : string)
| SelfAttr (name : string).

Fixpoint assoc {A : Type} (name : string) (l : list (string * A)) : option A :=
  match l with
  | [] => None
  | (n, a) :: r => if String.eqb n name then Some a else assoc name r
  end.

(** Attribute lookup for the receiver. An attribute of the provider that is
    not an event source has no [emit]. *)
Definition resolve (f : Flavor) (e : emitter) : outcome EventKind :=
  match e with
  | SelfOn name =>
      match assoc name (event_sources f) with
      | Some k => Returned k
      | None => Raised (AttributeError name)
      end
  | SelfAttr name =>
      if bool_decide (name ∈ provider_attributes f)
      then Raised (AttributeError "emit")
      else Raised (AttributeError name)
  end.

(** What a handler leaves behind: the relation, the events it emitted (oldest
    first) and how it ended. *)
Record Run : Type := {
  relation_after : Relation;
  emitted : list TypedEvent;
  result : outcome ()
}.

(** The body shared by the three [_on_relation_changed]: they differ in the
    key looked for in [diff.added] and in the receiver of [.emit]. *)
Definition on_relation_changed (key : string) (receiver : emitter)
    (self : Provider) (event : RelationChangedEvent) (rel : Relation) : Run :=
  if negb (is_leader (local_unit self)) then
    {| relation_after := rel; emitted := []; result := Returned () |}
  else
    match _diff self event rel with
    | Raised e => {| relation_after := rel; emitted := []; result := Raised e |}
    | Returned (diff, rel') =>
        if bool_decide (Json.wide key ∈ added diff) then
          match resolve (flavor self) receiver with
          | Returned k =>
              {| relation_after := rel';
                 emitted := [ {| kind := k; relation := rel_id rel';
                                 event_app := app event; event_unit := unit event |} ];
                 result := Returned () |}
          | Raised e => {| relation_after := rel'; emitted := []; result := Raised e |}
          end
        else {| relation_after := rel'; emitted := []; result := Returned () |}
    end.

(** [DatabaseProvides._on_relation_changed]:
    [if "database" in diff.added: self.on.database_requested.emit(...)]. *)
Definition DatabaseProvides_on_relation_changed :=
  on_relation_changed "database" (SelfOn "database_requested").

(** [KafkaProvides._on_relation_changed]:
    [if "topic" in diff.added: self.topic_created.emit(...)]. *)
Definition KafkaProvides_on_relation_changed :=
  on_relation_changed "topic" (SelfAttr "topic_created").

(** [ZookeeperProvides._on_relation_changed]:
    [if "chroot" in diff.added: self.topic_created.emit(...)]. *)
Definition ZookeeperProvides_on_relation_changed :=
  on_relation_changed "chroot" (SelfAttr "topic_created").

(** The handler of a provider, by its class. *)
Definition _on_relation_changed (self : Provider) : RelationChangedEvent → Relation → Run :=
  match flavor self with
  | Database => DatabaseProvides_on_relation_changed self
  | Kafka => KafkaProvides_on_relation_changed self
  | Zookeeper => ZookeeperProvides_on_relation_changed self
  end.

(** The key whose appearance asks for a resource. *)
Definition trigger_key (f : Flavor) : string :=
  match f with Database => "database" | Kafka => "topic" | Zookeeper => "chroot" end.

(** ** The leader-gated writer and the capability setters *)

(** [bag.update(fields)] on a databag of the framework
    ([RelationDataContent]): every field is written in turn, and writing the
    empty string under a key removes the key. *)
Definition bag_update (fields own : gmap string string) : gmap string string :=
  merge (λ field old,
           match field with
           | Some value => if decide (value = EmptyString) then None else Some value
           | None => old
           end)
        fields own.

(** [BaseResourceProvides._update_relation_data]. [get_relation] answers with
    the relation of that id; for an id the model does not know, the write
    fails in the framework ([ModelError]). *)
Definition _update_relation_data (self : Provider) (relation_id : Z)
    (data : gmap string string) (model : Model) : outcome () * Model :=
  if is_leader (local_unit self) then
    match model !! relation_id with
    | None => (Raised (ModelError relation_id), model)
    | Some rel =>
        match rel_data rel !! local_app self with
        | None => (Raised (KeyError (local_app self)), model)
        | Some own =>
            (Returned (),
             <[relation_id :=
                 with_data rel (<[local_app self := bag_update data own]> (rel_data rel))]>
               model)
        end
    end
  else (Returned (), model).

Definition set_version (self : Provider) (relation_id : Z) (version : string) :=
  _update_relation_data self relation_id {[ "version" := version ]}.

Definition set_credentials (self : Provider) (relation_id : Z) (username password : string) :=
  _update_relation_data self relation_id
    (<["username" := username]> {[ "password" := password ]}).

Definition set_tls (self : Provider) (relation_id : Z) (tls : string) :=
  _update_relation_data self relation_id {[ "tls" := tls ]}.

Definition set_tls_ca (self : Provider) (relation_id : Z) (tls_ca : string) :=
  _update_relation_data self relation_id {[ "tls_ca" := tls_ca ]}.

Definition set_endpoints (self : Provider) (relation_id : Z) (connection_strings : string) :=
  _update_relation_data self relation_id {[ "endpoints" := connection_strings ]}.

Definition set_read_only_endpoints (self : Provider) (relation_id : Z)
    (connection_strings : string) :=
  _update_relation_data self relation_id {[ "read-only-endpoints" := connection_strings ]}.

Definition set_replset (self : Provider) (relation_id : Z) (replset : string) :=
  _update_relation_data self relation_id {[ "replset" := replset ]}.

Definition set_uris (self : Provider) (relation_id : Z) (uris : string) :=
  _update_relation_data self relation_id {[ "uris" := uris ]}.

(** A call of one of the setters, with its arguments. *)
Inductive setter_call : Type :=
| SetVersion (version : string)
| SetCredentials (username password : string)
| SetTls (tls : string)
| SetTlsCa (tls_ca : string)
| SetEndpoints (connection_strings : string)
| SetReadOnlyEndpoints (connection_strings : string)
| SetReplset (replset : string)
| SetUris (uris : string).

Definition call_setter (c : setter_call) (self : Provider) (relation_id : Z)
  : Model → outcome () * Model :=
  match c with
  | SetVersion v => set_version self relation_id v
  | SetCredentials u p => set_credentials self relation_id u p
  | SetTls t => set_tls self relation_id t
  | SetTlsCa t => set_tls_ca self relation_id t
  | SetEndpoints e => set_endpoints self relation_id e
  | SetReadOnlyEndpoints e => set_read_only_endpoints self relation_id e
  | SetReplset r => set_replset self relation_id r
  | SetUris u => set_uris self relation_id u
  end.

(** ** Payload accessors of the typed events

    [self.relation.data[self.relation.app].get(key)], evaluated on the state
    the event's relation has when the property is read. *)
Definition peer_get (key : string) (self : TypedEvent) (rel : Relation)
  : outcome (option string) :=
  match rel_data rel !! rel_app rel with
  | Some bag => Returned (bag !! key)
  | None => Raised (KeyError (rel_app rel))
  end.

(** [BaseResourceAccessEvent.extra_user_roles]. *)
Definition extra_user_roles := peer_get "extra-user-roles".
(** [DatabaseEvent.database]. *)
Definition database := peer_get "database".
(** [KafkaEvent.topic]. *)
Definition topic := peer_get "topic".
(** [ZookeeperEvent.chroot]. *)
Definition chroot := peer_get "chroot".

(** ** The rest of the provider *)

(** [BaseResourceProvides.relations]: [list(self.charm.model.relations[name])]. *)
Definition relations (model : Model) : list Relation := (map_to_list model).*2.

(** [BaseResourceProvides.fetch_relation_data]: one pass over [relations],
    [data[relation.id] = {...}] at each; a relation without a bag for its
    remote application ends the pass with [KeyError]. *)
Definition fetch_step (acc : outcome (gmap Z (gmap string string))) (relation : Relation)
  : outcome (gmap Z (gmap string string)) :=
  match acc with
  | Raised e => Raised e
  | Returned data =>
      match rel_data relation !! rel_app relation with
      | Some bag => Returned (<[rel_id relation := without_data bag]> data)
      | None => Raised (KeyError (rel_app relation))
      end
  end.

Definition fetch_relation_data (model : Model) : outcome (gmap Z (gmap string string)) :=
  foldl fetch_step (Returned ∅) (relations model).

(** A view as the dictionary a decoder would build for it. *)
Definition as_decoded (view : gmap string string) : gmap (list N) Json.value :=
  kmap Json.wide ((λ v, Json.Str (Json.wide v)) <$> view).

(** ** Class statements

    The provider classes are built by [class] statements when their module is
    imported. A class statement computes the method resolution order of the
    new class from the orders of its bases (the linearization done by
    [pmerge] and [mro_implementation] of the interpreter); when no order is
    consistent it raises [TypeError] and binds no name. *)

Inductive merged : Type :=
| Merged (order : list string)
| Inconsistent
| Unfinished.

(** [tail_contains]: the class occurs in the sequence after its head. *)
Definition tail_contains (seq : list string) (c : string) : bool :=
  bool_decide (c ∈ tail seq).

(** The head of the first sequence that is in the tail of no sequence. *)
Fixpoint candidate (heads : list string) (to_merge : list (list string)) : option string :=
  match heads with
  | [] => None
  | c :: heads' =>
      if forallb (λ seq, negb (tail_contains seq c)) to_merge then Some c
      else candidate heads' to_merge
  end.

Definition advance (c : string) (seq : list string) : list string :=
  match seq with
  | h :: t => if bool_decide (h = c) then t else seq
  | [] => []
  end.

Definition unfinished (seq : list string) : bool :=
  match seq with
  | [] => false
  | _ :: _ => true
  end.

(** [pmerge]: one class is taken at each round, until every sequence is used
    up; a round that finds no candidate ends the merge with an error. *)
Fixpoint pmerge (rounds : nat) (to_merge : list (list string)) : merged :=
  match rounds with
  | O => Unfinished
  | S rounds =>
      match List.filter unfinished to_merge with
      | [] => Merged []
      | remaining =>
          match candidate (omap head remaining) remaining with
          | None => Inconsistent
          | Some c =>
              match pmerge rounds (advance c <$> remaining) with
              | Merged order => Merged (c :: order)
              | failure => failure
              end
          end
      end
  end.

(** The classes defined so far, each with its resolution order. *)
Abbreviation Classes := (list (string * list string)).

Inductive statement_result : Type :=
| Bound (classes : Classes)
| NameError (name : string)
| TypeError (bases : list string)
| OutOfRounds.

Fixpoint orders_of (classes : Classes) (bases : list string) : string + list (list string) :=
  match bases with
  | [] => inr []
  | base :: bases' =>
      match assoc base classes with
      | None => inl base
      | Some order =>
          match orders_of classes bases' with
          | inl name => inl name
          | inr orders => inr (order :: orders)
          end
      end
  end.

(** [class name(bases): ...]: [mro_implementation] merges the orders of the
    bases and the list of the bases itself, and puts the new class first. *)
Definition class_statement (classes : Classes) (name : string) (bases : list string)
  : statement_result :=
  match orders_of classes bases with
  | inl missing => NameError missing
  | inr orders =>
      let to_merge := (orders ++ [bases])%list in
      match pmerge (S (List.length (concat to_merge))) to_merge with
      | Merged order => Bound ((name, name :: order) :: classes)
      | Inconsistent => TypeError bases
      | Unfinished => OutOfRounds
      end
  end.

(** The class statements of a module, in the order of the file; the first one
    that raises ends the import. *)
Fixpoint class_statements (classes : Classes) (module : list (string * list string))
  : statement_result :=
  match module with
  | [] => Bound classes
  | (name, bases) :: rest =>
      match class_statement classes name bases with
      | Bound classes' => class_statements classes' rest
      | failure => failure
      end
  end.

(** The classes of the interpreter, of [abc] and of the framework that the
    library derives from, with their bases. *)
Definition imported_classes : list (string * list string) :=
  [ ("object", []);
    ("ABC", ["object"]);
    ("Object", ["object"]);
    ("EventBase", ["object"]);
    ("HookEvent", ["EventBase"]);
    ("RelationEvent", ["HookEvent"]);
    ("ObjectEvents", ["Object"]);
    ("CharmEvents", ["ObjectEvents"]) ].

(** The class statements of [resource_provides]. *)
Definition resource_provides : list (string * list string) :=
  [ ("BaseResourceAccessEvent", ["RelationEvent"]);
    ("BaseResourceProvides", ["Object"; "ABC"]);
    ("TlsEnabledRelation", ["BaseResourceProvides"; "ABC"]) ].

(** The class statements of [database_provides], [kafka_provides] and
    [zookeeper_provides]; the provider class is the last one of each. *)
Definition database_provides : list (string * list string) :=
  [ ("DatabaseEvent", ["RelationEvent"]);
    ("DatabaseRequestedEvent", ["DatabaseEvent"; "BaseResourceAccessEvent"]);
    ("DatabaseEvents", ["CharmEvents"]);
    ("DatabaseProvides", ["BaseResourceProvides"; "TlsEnabledRelation"]) ].

Definition kafka_provides : list (string * list string) :=
  [ ("KafkaEvent", ["RelationEvent"]);
    ("TopicCreatedEvent", ["KafkaEvent"; "BaseResourceAccessEvent"]);
    ("KafkaEvents", ["CharmEvents"]);
    ("KafkaProvides", ["BaseResourceProvides"; "TlsEnabledRelation"]) ].

Definition zookeeper_provides : list (string * list string) :=
  [ ("ZookeeperEvent", ["RelationEvent"]);
    ("ZNodeCreatedEvent", ["ZookeeperEvent"; "BaseResourceAccessEvent"]);
    ("ZookeeperEvents", ["CharmEvents"]);
    ("ZookeeperProvides", ["BaseResourceProvides"; "TlsEnabledRelation"]) ].

Definition module_of (f : Flavor) : list (string * list string) :=
  match f with
  | Database => database_provides
  | Kafka => kafka_provides
  | Zookeeper => zookeeper_provides
  end.

Definition provider_class (f : Flavor) : string :=
  match f with
  | Database => "DatabaseProvides"
  | Kafka => "KafkaProvides"
  | Zookeeper => "ZookeeperProvides"
  end.

(** ** Vocabulary of the statements *)

(** The keys of a view, as Python strings. *)
Definition keys (view : gmap string string) : gset (list N) :=
  dom (kmap Json.wide view : gmap (list N) string).

(** The relation once the snapshot of [view] is stored in the bag of
    [local_app self]. *)
Definition saved (self : Provider) (rel : Relation) (own view : gmap string string)
  : Relation :=
  with_data rel (<[local_app self := {[ "data" := Json.dumps view ]} ∪ own]> (rel_data rel)).

(** A key of the peer bag that takes part in the diff. *)
Definition in_view (peer : gmap string string) (k : list N) : Prop :=
  ∃ s, k = Json.wide s ∧ s ≠ "data" ∧ is_Some (peer !! s).

(** The snapshot a provider holds for a relation of the model, if any. *)
Definition snapshot_of (self : Provider) (model : Model) (relation_id : Z) : option string :=
  rel ← model !! relation_id; own ← rel_data rel !! local_app self; own !! "data".

Definition no_diff : Diff := {| added := ∅; changed := ∅; deleted := ∅ |}.

(** The provider's bag records [view] as the last view it diffed: its
    snapshot is the serialization of [view], or it has no snapshot yet and
    [view] is empty. *)
Definition records (own view : gmap string string) : Prop :=
  own !! "data" = Some (Json.dumps view) ∨ (own !! "data" = None ∧ view = ∅).

(** What happens to a relation, seen from a provider: another entity writes
    its own bag, the provider calls a setter for the relation, or a
    relation-changed notification is handled. *)
Inductive step (self : Provider) : Relation → Relation → Prop :=
| step_remote_write (rel : Relation) (entity : string) (bag : gmap string string) :
    entity ≠ local_app self →
    step self rel (with_data rel (<[entity := bag]> (rel_data rel)))
| step_setter (rel rel' : Relation) (c : setter_call) (o : outcome ()) (model' : Model) :
    call_setter c self (rel_id rel) {[ rel_id rel := rel ]} = (o, model') →
    model' !! rel_id rel = Some rel' →
    step self rel rel'
| step_notification (rel : Relation) (event : RelationChangedEvent) :
    step self rel (relation_after (_on_relation_changed self event rel)).

(** The snapshot of the provider's bag, when there is one, decodes to an
    object. *)
Definition decodable (self : Provider) (rel : Relation) : Prop :=
  ∀ own, rel_data rel !! local_app self = Some own →
         ∃ pairs, Json.loads (default "{}" (own !! "data")) = Some (Json.Object pairs).

(** ** Sample objects *)

Definition leader_of (f : Flavor) : Provider :=
  {| flavor := f; local_app := "provider";
     local_unit := {| unit_name := "provider/0"; is_leader := true |};
     relation_name := "client" |}.

Definition follower_of (f : Flavor) : Provider :=
  {| flavor := f; local_app := "provider";
     local_unit := {| unit_name := "provider/1"; is_leader := false |};
     relation_name := "client" |}.

Definition changed_by_app : RelationChangedEvent :=
  {| app := "application"; unit := None |}.

Definition changed_by_unit : RelationChangedEvent :=
  {| app := "application"; unit := Some "application/0" |}.

(** The texts [{"a": "1", "b": "2"}], [{"a": "1"}], [{"topic": "t"}] and
    [{"database": "X"}]. *)
Definition text_a1_b2 : string :=
  Eval vm_compute in Json.dumps (<["a" := "1"]> {[ "b" := "2" ]}).
Definition text_a1 : string := Eval vm_compute in Json.dumps {[ "a" := "1" ]}.
Definition text_topic_t : string := Eval vm_compute in Json.dumps {[ "topic" := "t" ]}.
Definition text_database_X : string :=
  Eval vm_compute in Json.dumps {[ "database" := "X" ]}.

(** A relation with the given provider bag and peer bag. *)
Definition sample_relation (own peer : gmap string string) : Relation :=
  {| rel_id := 7; rel_app := "application";
     rel_data := <["provider" := own]> {[ "application" := peer ]} |}.

(** * Properties *)

(** ** The codec reads back what it wrote *)

Section JsonRoundTrip.
Import Json.

Lemma append_cons (c : ascii) (s t : string) : String c s ++ t = String c (s ++ t).
Proof. reflexivity. Qed.

Lemma append_nil (t : string) : EmptyString ++ t = t.
Proof. reflexivity. Qed.

Lemma append_assoc (s t u : string) : (s ++ t) ++ u = s ++ (t ++ u).
Proof. induction s as [|c s IH]; [reflexivity|]. rewrite !append_cons. by f_equal. Qed.

Lemma length_append (s t : string) :
  String.length (s ++ t) = String.length s + String.length t.
Proof. induction s as [|c s IH]; [reflexivity|]. rewrite append_cons. simpl. by f_equal. Qed.

(** One escaped character is read back as that character. *)
Lemma scanstring_escape (c : ascii) (rest : string) :
  scanstring (escape c ++ rest) =
  match scanstring rest with
  | Some (w, r) => Some (N_of_ascii c :: w, r)
  | None => None
  end.
Proof.
  destruct c as [[] [] [] [] [] [] [] []]; reflexivity.
Qed.

(** An escaped string up to its closing quote is read back whole. *)
Lemma scanstring_escape_all (s rest : string) :
  scanstring (escape_all s ++ String "034" rest) = Some (wide s, rest).
Proof.
  induction s as [|c s IH]; [reflexivity|].
  cbn [escape_all wide]. by rewrite append_assoc, scanstring_escape, IH.
Qed.

Lemma quote_append (s rest : string) :
  quote s ++ rest = String "034" (escape_all s ++ String "034" rest).
Proof. unfold quote. by rewrite append_cons, append_assoc. Qed.

Lemma scan_members_eq (fuel : nat) (s : string) :
  scan_members (S fuel) s =
  match scanstring s with
  | None => None
  | Some (key, r) =>
      match skip_ws r with
      | String c r1 =>
          if (c =? ":")%char then
            match scan_once fuel (skip_ws r1) with
            | None => None
            | Some (v, r2) =>
                match skip_ws r2 with
                | String c2 r3 =>
                    if (c2 =? "}")%char then Some ([(key, v)], r3)
                    else if (c2 =? ",")%char then
                      match skip_ws r3 with
                      | String c4 r4 =>
                          if (c4 =? "034")%char then
                            match scan_members fuel r4 with
                            | Some (ps, r5) => Some ((key, v) :: ps, r5)
                            | None => None
                            end
                          else None
                      | EmptyString => None
                      end
                    else None
                | EmptyString => None
                end
            end
          else None
      | EmptyString => None
      end
  end.
Proof. reflexivity. Qed.

Lemma scan_once_eq (fuel : nat) (c : ascii) (r : string) :
  scan_once (S fuel) (String c r) =
  if (c =? "034")%char then
    match scanstring r with
    | Some (w, r') => Some (Str w, r')
    | None => None
    end
  else if (c =? "{")%char then
    match skip_ws r with
    | String c' r' =>
        if (c' =? "}")%char then Some (Object [], r')
        else if (c' =? "034")%char then
          match scan_members fuel r' with
          | Some (ps, r'') => Some (Object ps, r'')
          | None => None
          end
        else None
    | EmptyString => None
    end
  else if (c =? "[")%char then
    match skip_ws r with
    | String c' r' =>
        if (c' =? "]")%char then Some (Array [], r')
        else
          match scan_items fuel (String c' r') with
          | Some (vs, r'') => Some (Array vs, r'')
          | None => None
          end
    | EmptyString => None
    end
  else scan_literal (String c r).
Proof. reflexivity. Qed.

Lemma scan_items_eq (fuel : nat) (s : string) :
  scan_items (S fuel) s =
  match scan_once fuel s with
  | None => None
  | Some (v, r) =>
      match skip_ws r with
      | String c r1 =>
          if (c =? "]")%char then Some ([v], r1)
          else if (c =? ",")%char then
            match scan_items fuel (skip_ws r1) with
            | Some (vs, r2) => Some (v :: vs, r2)
            | None => None
            end
          else None
      | EmptyString => None
      end
  end.
Proof. reflexivity. Qed.

Lemma scan_once_string (fuel : nat) (s rest : string) :
  (1 <= fuel)%nat →
  scan_once fuel (String "034" (escape_all s ++ String "034" rest)) = Some (Str (wide s), rest).
Proof.
  destruct fuel as [|fuel]; [lia|]. intros _.
  rewrite scan_once_eq. cbn [Ascii.eqb Bool.eqb]. by rewrite scanstring_escape_all.
Qed.

Lemma skip_ws_stop (c : ascii) (r : string) :
  is_ws c = false → skip_ws (String c r) = String c r.
Proof. intros H. cbn [skip_ws]. by rewrite H. Qed.

Lemma skip_ws_next (c : ascii) (r : string) :
  is_ws c = true → skip_ws (String c r) = skip_ws r.
Proof. intros H. cbn [skip_ws]. by rewrite H. Qed.


(** The last member of a dumped object, entered after the opening quote of
    its key. *)
Lemma scan_members_last (fuel : nat) (k v rest : string) :
  (1 <= fuel)%nat →
  scan_members (S fuel)
    (escape_all k ++ String "034" (": " ++ quote v ++ String "}" rest))
  = Some ([decoded (k, v)], rest).
Proof.
  intros Hfuel.
  rewrite scan_members_eq, scanstring_escape_all, quote_append, !append_cons, !append_nil.
  rewrite (skip_ws_stop ":" _ eq_refl). cbn [Ascii.eqb Bool.eqb].
  rewrite (skip_ws_next " " _ eq_refl), (skip_ws_stop "034" _ eq_refl).
  rewrite scan_once_string by done.
  by rewrite (skip_ws_stop "}" _ eq_refl).
Qed.

(** A member followed by another one. *)
Lemma scan_members_more (fuel : nat) (k v body : string) :
  (1 <= fuel)%nat →
  scan_members (S fuel)
    (escape_all k ++ String "034" (": " ++ quote v ++ ", " ++ String "034" body))
  = match scan_members fuel body with
    | Some (ps, r) => Some (decoded (k, v) :: ps, r)
    | None => None
    end.
Proof.
  intros Hfuel.
  rewrite scan_members_eq, scanstring_escape_all, quote_append, !append_cons, !append_nil.
  rewrite (skip_ws_stop ":" _ eq_refl). cbn [Ascii.eqb Bool.eqb].
  rewrite (skip_ws_next " " _ eq_refl), (skip_ws_stop "034" _ eq_refl).
  rewrite scan_once_string by done.
  rewrite (skip_ws_stop "," _ eq_refl). cbn [Ascii.eqb Bool.eqb].
  by rewrite (skip_ws_next " " _ eq_refl), (skip_ws_stop "034" _ eq_refl).
Qed.

Lemma dump_items_cons (kv : string * string) (l : list (string * string)) (rest : string) :
  dump_items (kv :: l) ++ String "}" rest =
  String "034" (escape_all kv.1 ++ String "034" (": " ++ quote kv.2 ++
    match l with
    | [] => String "}" rest
    | _ :: _ => ", " ++ dump_items l ++ String "}" rest
    end)).
Proof.
  rewrite <-quote_append.
  destruct l as [|kv' l]; cbn [dump_items]; unfold dump_item;
    by rewrite ?append_assoc.
Qed.

(** The members of a dumped object, entered after the opening quote. *)
Lemma scan_members_dump (l : list (string * string)) :
  ∀ (kv : string * string) (fuel : nat) (rest : string),
    (List.length l + 2 <= fuel)%nat →
    ∃ body, dump_items (kv :: l) ++ String "}" rest = String "034" body ∧
            scan_members fuel body = Some (decoded <$> kv :: l, rest).
Proof.
  induction l as [|kv' l IH]; intros [k v] fuel rest Hfuel;
    (destruct fuel as [|fuel]; [lia|]); cbn [List.length] in Hfuel;
    rewrite dump_items_cons; (eexists; split; [reflexivity|]); cbn [fst snd].
  - by rewrite scan_members_last by lia.
  - destruct (IH kv' fuel rest) as (body & Hbody & Hscan); [lia|].
    rewrite Hbody, scan_members_more, Hscan by lia. reflexivity.
Qed.

(** *** The scanner never runs out of fuel *)

Lemma skip_ws_length (s : string) : (String.length (skip_ws s) <= String.length s)%nat.
Proof. induction s as [|c s IH]; cbn [skip_ws String.length]; [lia|]. case_match; cbn; lia. Qed.

Lemma scanstring_length (n : nat) :
  ∀ (s : string) (w : list N) (r : string),
    (String.length s <= n)%nat → scanstring s = Some (w, r) →
    (String.length r < String.length s)%nat.
Proof.
  induction n as [|n IH]; intros [|c s] w r Hn Hscan; try done;
    cbn [String.length] in Hn; [lia|].
  cbn [scanstring] in Hscan.
  repeat case_match; simplify_eq; cbn [String.length] in *; try lia;
    match goal with
    | H : scanstring _ = Some _ |- _ => apply IH in H; cbn [String.length] in *; lia
    end.
Qed.

Lemma strip_prefix_length (p s r : string) :
  strip_prefix p s = Some r → (String.length r <= String.length s)%nat.
Proof.
  revert s. induction p as [|a p IH]; intros [|b s] H; simplify_eq/=; try lia.
  case_match; [|done]. apply IH in H. lia.
Qed.

Lemma span_digits_length (s ds r : string) :
  span_digits s = (ds, r) → (String.length r <= String.length s)%nat.
Proof.
  revert ds r. induction s as [|c s IH]; intros ds r H; cbn [span_digits] in H.
  - by simplify_eq.
  - case_match; [|by simplify_eq].
    destruct (span_digits s) as [ds' r'] eqn:Hs. simplify_eq.
    specialize (IH _ _ eq_refl). cbn. lia.
Qed.

Lemma match_int_length (s i r : string) :
  match_int s = Some (i, r) → (String.length r <= String.length s)%nat.
Proof.
  unfold match_int. destruct s as [|c s]; [done|].
  destruct (_ =? _)%N; [intros [= <- <-]; cbn; lia|].
  destruct (is_digit c); [|done].
  destruct (span_digits s) as [ds r'] eqn:Hs. intros [= <- <-].
  apply span_digits_length in Hs. cbn. lia.
Qed.

Lemma match_frac_length (s f r : string) :
  match_frac s = (f, r) → (String.length r <= String.length s)%nat.
Proof.
  unfold match_frac. destruct s as [|c s]; [by intros [= <- <-]|].
  destruct (_ =? _)%char; [|by intros [= <- <-]].
  destruct (span_digits s) as [[|d ds] r'] eqn:Hs; intros [= <- <-]; [done|].
  apply span_digits_length in Hs. cbn. lia.
Qed.

Lemma match_exp_length (s e r : string) :
  match_exp s = (e, r) → (String.length r <= String.length s)%nat.
Proof.
  unfold match_exp, match_sign. destruct s as [|c s]; [by intros [= <- <-]|].
  destruct (_ || _); [|by intros [= <- <-]].
  destruct s as [|c' s].
  - by intros [= <- <-].
  - destruct (_ || _).
    + destruct (span_digits s) as [[|d ds] r'] eqn:Hs; intros [= <- <-]; [done|].
      apply span_digits_length in Hs. cbn. lia.
    + destruct (span_digits (String c' s)) as [[|d ds] r'] eqn:Hs; intros [= <- <-]; [done|].
      apply span_digits_length in Hs. cbn in *. lia.
Qed.

Lemma match_number_length (s lexeme r : string) :
  match_number s = Some (lexeme, r) → (String.length r <= String.length s)%nat.
Proof.
  unfold match_number.
  set (signed := match s with String c r0 => _ | EmptyString => _ end).
  assert (String.length signed.2 <= String.length s)%nat as Hsign.
  { subst signed. destruct s as [|c s]; [done|]. destruct (_ =? _)%char; cbn; lia. }
  destruct signed as [sign s1]. cbn [snd] in Hsign.
  destruct (match_int s1) as [[i s2]|] eqn:Hint; [|done].
  destruct (match_frac s2) as [f s3] eqn:Hfrac.
  destruct (match_exp s3) as [e s4] eqn:Hexp. intros [= <- <-].
  apply match_int_length in Hint. apply match_frac_length in Hfrac.
  apply match_exp_length in Hexp. lia.
Qed.

Lemma scan_literal_length (s : string) (v : value) (r : string) :
  scan_literal s = Some (v, r) → (String.length r <= String.length s)%nat.
Proof.
  unfold scan_literal. intros H.
  repeat case_match; simplify_eq;
    first [ by eapply strip_prefix_length | by eapply match_number_length ].
Qed.

(** What a scan leaves is never longer than what it was given. *)
Lemma scan_length (fuel : nat) :
  (∀ s v r, scan_once fuel s = Some (v, r) → (String.length r <= String.length s)%nat) ∧
  (∀ s ps r, scan_members fuel s = Some (ps, r) → (String.length r <= String.length s)%nat) ∧
  (∀ s vs r, scan_items fuel s = Some (vs, r) → (String.length r <= String.length s)%nat).
Proof.
  induction fuel as [|fuel (IHonce & IHmembers & IHitems)]; [by split_and!; intros []|].
  split_and!.
  - intros [|c s] v r; [done|]. rewrite scan_once_eq.
    destruct (c =? "034")%char.
    { destruct (scanstring s) as [[w r']|] eqn:Hs; intros [= <- <-].
      apply (scanstring_length _ _ _ _ (le_n _)) in Hs. cbn. lia. }
    destruct (c =? "{")%char.
    { pose proof (skip_ws_length s) as Hws.
      destruct (skip_ws s) as [|c' r']; [done|]. cbn [String.length] in *.
      destruct (c' =? "}")%char; [intros [= <- <-]; lia|].
      destruct (c' =? "034")%char; [|done].
      destruct (scan_members fuel r') as [[ps r'']|] eqn:Hm; intros [= <- <-].
      apply IHmembers in Hm. lia. }
    destruct (c =? "[")%char; [|apply scan_literal_length].
    pose proof (skip_ws_length s) as Hws.
    destruct (skip_ws s) as [|c' r']; [done|].
    destruct (c' =? "]")%char; [intros [= <- <-]; cbn [String.length] in *; lia|].
    destruct (scan_items fuel (String c' r')) as [[vs r'']|] eqn:Hi; intros [= <- <-].
    apply IHitems in Hi. cbn [String.length] in *. lia.
  - intros s ps r. rewrite scan_members_eq.
    destruct (scanstring s) as [[key r0]|] eqn:Hs; [|done].
    apply (scanstring_length _ _ _ _ (le_n _)) in Hs.
    pose proof (skip_ws_length r0) as Hws0.
    destruct (skip_ws r0) as [|c r1]; [done|]. cbn [String.length] in *.
    destruct (c =? ":")%char; [|done].
    pose proof (skip_ws_length r1) as Hws1.
    destruct (scan_once fuel (skip_ws r1)) as [[v r2]|] eqn:Ho; [|done].
    apply IHonce in Ho. pose proof (skip_ws_length r2) as Hws2.
    destruct (skip_ws r2) as [|c2 r3]; [done|]. cbn [String.length] in *.
    destruct (c2 =? "}")%char; [intros [= <- <-]; lia|].
    destruct (c2 =? ",")%char; [|done].
    pose proof (skip_ws_length r3) as Hws3.
    destruct (skip_ws r3) as [|c4 r4]; [done|]. cbn [String.length] in *.
    destruct (c4 =? "034")%char; [|done].
    destruct (scan_members fuel r4) as [[ps' r5]|] eqn:Hm; intros [= <- <-].
    apply IHmembers in Hm. lia.
  - intros s vs r. rewrite scan_items_eq.
    destruct (scan_once fuel s) as [[v r0]|] eqn:Ho; [|done].
    apply IHonce in Ho. pose proof (skip_ws_length r0) as Hws0.
    destruct (skip_ws r0) as [|c r1]; [done|]. cbn [String.length] in *.
    destruct (c =? "]")%char; [intros [= <- <-]; lia|].
    destruct (c =? ",")%char; [|done].
    pose proof (skip_ws_length r1) as Hws1.
    destruct (scan_items fuel (skip_ws r1)) as [[vs' r2]|] eqn:Hi; intros [= <- <-].
    apply IHitems in Hi. lia.
Qed.

(** Fuel above twice the length of the text is as good as any more fuel. *)
Lemma scan_fuel_irrelevant (fuel : nat) :
  (∀ s fuel', (2 * String.length s < fuel)%nat → (fuel <= fuel')%nat →
     scan_once fuel' s = scan_once fuel s) ∧
  (∀ s fuel', (2 * String.length s < fuel)%nat → (fuel <= fuel')%nat →
     scan_members fuel' s = scan_members fuel s) ∧
  (∀ s fuel', (2 * String.length s + 1 < fuel)%nat → (fuel <= fuel')%nat →
     scan_items fuel' s = scan_items fuel s).
Proof.
  induction fuel as [|fuel (IHonce & IHmembers & IHitems)]; [split_and!; intros; lia|].
  split_and!; intros s [|fuel'] Hlen Hle; try lia.
  - destruct s as [|c s]; [done|]. rewrite !scan_once_eq. cbn [String.length] in Hlen.
    destruct (c =? "034")%char; [done|].
    destruct (c =? "{")%char.
    { pose proof (skip_ws_length s) as Hws.
      destruct (skip_ws s) as [|c' r']; [done|]. cbn [String.length] in *.
      destruct (c' =? "}")%char; [done|]. destruct (c' =? "034")%char; [|done].
      by rewrite (IHmembers r' fuel') by lia. }
    destruct (c =? "[")%char; [|done].
    pose proof (skip_ws_length s) as Hws.
    destruct (skip_ws s) as [|c' r']; [done|].
    destruct (c' =? "]")%char; [done|].
    by rewrite (IHitems (String c' r') fuel') by (cbn [String.length] in *; lia).
  - rewrite !scan_members_eq.
    destruct (scanstring s) as [[key r0]|] eqn:Hs; [|done].
    apply (scanstring_length _ _ _ _ (le_n _)) in Hs.
    pose proof (skip_ws_length r0) as Hws0.
    destruct (skip_ws r0) as [|c r1]; [done|]. cbn [String.length] in *.
    destruct (c =? ":")%char; [|done].
    pose proof (skip_ws_length r1) as Hws1.
    rewrite (IHonce (skip_ws r1) fuel') by lia.
    destruct (scan_once fuel (skip_ws r1)) as [[v r2]|] eqn:Ho; [|done].
    apply (proj1 (scan_length fuel)) in Ho. pose proof (skip_ws_length r2) as Hws2.
    destruct (skip_ws r2) as [|c2 r3]; [done|]. cbn [String.length] in *.
    destruct (c2 =? "}")%char; [done|]. destruct (c2 =? ",")%char; [|done].
    pose proof (skip_ws_length r3) as Hws3.
    destruct (skip_ws r3) as [|c4 r4]; [done|]. cbn [String.length] in *.
    destruct (c4 =? "034")%char; [|done].
    by rewrite (IHmembers r4 fuel') by lia.
  - rewrite !scan_items_eq. rewrite (IHonce s fuel') by lia.
    destruct (scan_once fuel s) as [[v r0]|] eqn:Ho; [|done].
    apply (proj1 (scan_length fuel)) in Ho. pose proof (skip_ws_length r0) as Hws0.
    destruct (skip_ws r0) as [|c r1]; [done|]. cbn [String.length] in *.
    destruct (c =? "]")%char; [done|]. destruct (c =? ",")%char; [|done].
    pose proof (skip_ws_length r1) as Hws1.
    by rewrite (IHitems (skip_ws r1) fuel') by lia.
Qed.

(** [loads] answers what the scanner answers with any larger fuel: [None] is
    a malformed text, never a lack of fuel. *)
Lemma loads_fuel (s : string) (fuel : nat) :
  (2 * String.length s < fuel)%nat →
  loads s =
  match scan_once fuel (skip_ws s) with
  | Some (v, r) =>
      match skip_ws r with
      | EmptyString => Some v
      | String _ _ => None
      end
  | None => None
  end.
Proof.
  intros Hfuel. unfold loads.
  pose proof (skip_ws_length s) as Hws.
  by rewrite (proj1 (scan_fuel_irrelevant (S (2 * String.length s))) (skip_ws s) fuel) by lia.
Qed.

Lemma length_dump_items (l : list (string * string)) :
  (List.length l <= String.length (dump_items l))%nat.
Proof.
  induction l as [|kv [|kv' l] IH]; [done| |].
  - cbn [dump_items]. unfold dump_item, quote.
    rewrite append_cons. cbn [String.length List.length]. lia.
  - change (dump_items (kv :: kv' :: l))
      with (dump_item kv ++ ", " ++ dump_items (kv' :: l)).
    unfold dump_item at 1, quote. rewrite append_cons, !length_append.
    cbn [String.length List.length] in *. lia.
Qed.

(** [json.loads] reads a dumped object back, entry by entry. *)
Lemma loads_dump_items (l : list (string * string)) :
  loads ("{" ++ dump_items l ++ "}") = Some (Object (decoded <$> l)).
Proof.
  unfold loads. rewrite append_cons, append_nil.
  rewrite (skip_ws_stop "{" _ eq_refl), scan_once_eq. cbn [Ascii.eqb Bool.eqb].
  destruct l as [|kv l].
  - cbn [dump_items]. rewrite append_nil, (skip_ws_stop "}" _ eq_refl). reflexivity.
  - set (fuel := (2 * String.length _)%nat).
    assert (List.length l + 2 <= fuel)%nat as Hfuel.
    { subst fuel. cbn [String.length]. rewrite length_append.
      pose proof (length_dump_items (kv :: l)). cbn [List.length String.length] in *. lia. }
    destruct (scan_members_dump l kv fuel EmptyString) as (body & Hbody & Hscan); [lia|].
    rewrite Hbody, (skip_ws_stop "034" _ eq_refl). cbn [Ascii.eqb Bool.eqb].
    rewrite Hscan. reflexivity.
Qed.

#[global] Instance wide_inj : Inj (=) (=) wide.
Proof.
  intros s. induction s as [|c s IH]; intros [|c' s'] Heq; simplify_eq/=; [done|].
  f_equal; [|by apply IH].
  rewrite <-(ascii_N_embedding c), <-(ascii_N_embedding c'). by f_equal.
Qed.

Lemma dict_of_pairs_list_to_map (pairs : list (list N * value)) :
  dict_of_pairs pairs = list_to_map (reverse pairs).
Proof.
  unfold dict_of_pairs.
  induction pairs as [|kv pairs IH] using rev_ind; [done|].
  by rewrite foldl_app, reverse_app, IH.
Qed.

Lemma dict_of_pairs_lookup (pairs : list (list N * value)) (k : list N) (v : value) :
  NoDup pairs.*1 → dict_of_pairs pairs !! k = Some v ↔ (k, v) ∈ pairs.
Proof.
  intros Hnd. rewrite dict_of_pairs_list_to_map, <-elem_of_list_to_map.
  - by rewrite elem_of_reverse.
  - by rewrite fmap_reverse, reverse_Permutation.
Qed.

(** The dictionary decoded from a dumped view holds the view. *)
Lemma dict_of_dumped (view : gmap string string) :
  dict_of_pairs (decoded <$> map_to_list view)
  = kmap wide ((λ v, Str (wide v)) <$> view).
Proof.
  apply map_eq. intros k. apply option_eq. intros x.
  rewrite dict_of_pairs_lookup.
  - rewrite lookup_kmap_Some by apply _. rewrite list_elem_of_fmap.
    setoid_rewrite lookup_fmap_Some. split.
    + intros ([s v] & [= -> ->] & Hin%elem_of_map_to_list). eauto.
    + intros (s & -> & v & <- & Hv). exists (s, v). by rewrite elem_of_map_to_list.
  - rewrite <-list_fmap_compose.
    rewrite (list_fmap_ext (fst ∘ decoded) (wide ∘ fst) (map_to_list view))
      by (by intros ? []).
    rewrite list_fmap_compose. apply (NoDup_fmap_2 _), NoDup_fst_map_to_list.
Qed.

Lemma loads_dumps (view : gmap string string) :
  loads (dumps view) = Some (Object (decoded <$> map_to_list view)).
Proof. apply loads_dump_items. Qed.

End JsonRoundTrip.

(** ** Writes to a databag *)

Section BagUpdate.

Implicit Types (fields own : gmap string string) (key : string).

Lemma lookup_bag_update fields own key :
  bag_update fields own !! key
  = match fields !! key with
    | Some value => if decide (value = EmptyString) then None else Some value
    | None => own !! key
    end.
Proof. unfold bag_update. rewrite lookup_merge. by destruct (fields !! key), (own !! key). Qed.

Lemma lookup_bag_update_None fields own key :
  fields !! key = None → bag_update fields own !! key = own !! key.
Proof. intros Hkey. by rewrite lookup_bag_update, Hkey. Qed.

Lemma bag_update_compose fields1 fields2 own :
  bag_update fields2 (bag_update fields1 own) = bag_update (fields2 ∪ fields1) own.
Proof.
  apply map_eq. intros key. rewrite !lookup_bag_update, lookup_union.
  by destruct (fields2 !! key), (fields1 !! key).
Qed.

Lemma bag_update_commute fields1 fields2 own :
  fields1 ##ₘ fields2 →
  bag_update fields2 (bag_update fields1 own) = bag_update fields1 (bag_update fields2 own).
Proof.
  intros Hdisjoint. apply map_eq. intros key. rewrite !lookup_bag_update.
  destruct (fields1 !! key) eqn:H1, (fields2 !! key) eqn:H2; try done.
  by destruct (map_disjoint_spec fields1 fields2) as [Hspec _]; destruct (Hspec Hdisjoint key _ _ H1 H2).
Qed.

(** The snapshot write of [_diff], [update({"data": json.dumps(new_data)})],
    is an insertion: the text is never empty. *)
Lemma bag_update_snapshot (view own : gmap string string) :
  bag_update {[ "data" := Json.dumps view ]} own = {[ "data" := Json.dumps view ]} ∪ own.
Proof.
  apply map_eq. intros key. rewrite lookup_bag_update, lookup_union.
  destruct (decide (key = "data")) as [->|Hne].
  - rewrite lookup_singleton_eq. unfold Json.dumps. rewrite append_cons.
    case_decide; [done|]. by destruct (own !! "data").
  - rewrite lookup_singleton_ne by done. by destruct (own !! key).
Qed.

End BagUpdate.

(** ** The diff engine, step by step *)

Section DiffEngine.
Import Json.

Implicit Types (self : Provider) (event : RelationChangedEvent) (rel : Relation).
Implicit Types (own peer view : gmap string string).
Implicit Types (old : gmap (list N) value) (k : list N).

Lemma elem_of_keys view k :
  k ∈ keys view ↔ ∃ s, k = wide s ∧ is_Some (view !! s).
Proof. unfold keys. by rewrite elem_of_dom, lookup_kmap_is_Some by apply _. Qed.

Lemma lookup_without_data peer s v :
  without_data peer !! s = Some v ↔ peer !! s = Some v ∧ s ≠ "data".
Proof. unfold without_data. by rewrite map_lookup_filter_Some. Qed.

Lemma without_data_snapshot own (text : string) :
  without_data ({[ "data" := text ]} ∪ own) = without_data own.
Proof.
  apply map_eq. intros s. apply option_eq. intros v.
  rewrite !lookup_without_data, lookup_union_Some_raw, lookup_singleton_Some,
    lookup_singleton_None.
  naive_solver.
Qed.

(** [_diff] returns exactly when both bags exist and the stored snapshot (or
    ["{}"] without one) decodes to an object; it then returns the three sets
    computed from that object and the peer view, and stores the view. *)
Lemma diff_returns self event rel own peer pairs :
  rel_data rel !! local_app self = Some own →
  rel_data rel !! app event = Some peer →
  loads (default "{}" (own !! "data")) = Some (Object pairs) →
  _diff self event rel =
  Returned
    ({| added := keys (without_data peer) ∖ dom (dict_of_pairs pairs);
        changed :=
          filter (λ key, differs (dict_of_pairs pairs !! key)
                           ((kmap wide (without_data peer) : gmap (list N) string) !! key)
                         = true)
                 (dom (dict_of_pairs pairs) ∩ keys (without_data peer));
        deleted := dom (dict_of_pairs pairs) ∖ keys (without_data peer) |},
     saved self rel own (without_data peer)).
Proof. intros Hown Hpeer Hold. unfold _diff. by rewrite Hown, Hold, Hpeer. Qed.

Lemma diff_returned_inv self event rel d rel' :
  _diff self event rel = Returned (d, rel') →
  ∃ own peer pairs,
    rel_data rel !! local_app self = Some own ∧
    rel_data rel !! app event = Some peer ∧
    loads (default "{}" (own !! "data")) = Some (Object pairs).
Proof.
  unfold _diff. intros H.
  destruct (rel_data rel !! local_app self) as [own|]; [|done].
  destruct (loads _) as [old|] eqn:Hold; [|done].
  destruct (rel_data rel !! app event) as [peer|]; [|done].
  destruct old; try done. eauto 10.
Qed.

(** Membership in the three sets, read on the bags. *)
Lemma elem_of_changed old view k :
  k ∈ filter (λ key, differs (old !! key) ((kmap wide view : gmap (list N) string) !! key) = true)
             (dom old ∩ keys view)
  ↔ ∃ s v o, k = wide s ∧ view !! s = Some v ∧ old !! k = Some o ∧ o ≠ Str (wide v).
Proof.
  rewrite elem_of_filter, elem_of_intersection, elem_of_keys, elem_of_dom. split.
  - intros (Hd & [o Ho] & s & -> & [v Hv]).
    exists s, v, o. repeat split; try done.
    rewrite Ho, lookup_kmap, Hv in Hd by apply _. intros ->.
    cbn in Hd. by rewrite bool_decide_true in Hd.
  - intros (s & v & o & -> & Hv & Ho & Hne). rewrite Ho, lookup_kmap, Hv by apply _.
    split; [|by eauto].
    destruct o; try done. cbn. rewrite bool_decide_false; [done|congruence].
Qed.

End DiffEngine.

(** ** Classification of the keys *)

Section Classification.
Import Json.

Implicit Types (self : Provider) (event : RelationChangedEvent) (rel : Relation).
Implicit Types (own peer view : gmap string string) (k : list N).

Lemma elem_of_keys_without_data peer k : k ∈ keys (without_data peer) ↔ in_view peer k.
Proof.
  rewrite elem_of_keys. unfold in_view, is_Some.
  setoid_rewrite lookup_without_data. naive_solver.
Qed.

(** C4. With an old snapshot mapping [old] and the peer bag [peer], [_diff]
    returns: in [added] the keys of the peer view (the peer bag without
    ["data"]) that [old] lacks, in [deleted] the keys of [old] that the peer
    view lacks, and in [changed] the keys of both whose values differ. *)
Theorem diff_classifies_keys self event rel own peer pairs :
  rel_data rel !! local_app self = Some own →
  rel_data rel !! app event = Some peer →
  loads (default "{}" (own !! "data")) = Some (Object pairs) →
  ∃ d rel',
    _diff self event rel = Returned (d, rel') ∧
    (∀ k, k ∈ added d ↔ in_view peer k ∧ dict_of_pairs pairs !! k = None) ∧
    (∀ k, k ∈ deleted d ↔ is_Some (dict_of_pairs pairs !! k) ∧ ¬ in_view peer k) ∧
    (∀ k, k ∈ changed d ↔
       ∃ s v o, k = wide s ∧ s ≠ "data" ∧ peer !! s = Some v ∧
                dict_of_pairs pairs !! k = Some o ∧ o ≠ Str (wide v)).
Proof.
  intros Hown Hpeer Hold. eexists _, _.
  split; [by apply diff_returns|]. cbn [added deleted changed]. split_and!; intros k.
  - by rewrite elem_of_difference, elem_of_keys_without_data, not_elem_of_dom.
  - by rewrite elem_of_difference, elem_of_keys_without_data, elem_of_dom.
  - rewrite elem_of_changed. setoid_rewrite lookup_without_data. naive_solver.
Qed.

Lemma diff_classifies_keys_witness :
  ∃ d rel',
    _diff (leader_of Database) changed_by_app
      (sample_relation {[ "data" := text_a1_b2 ]}
                       (<["b" := "3"]> {[ "c" := "4" ]}))
    = Returned (d, rel') ∧
    wide "c" ∈ added d ∧ wide "a" ∈ deleted d ∧ wide "b" ∈ changed d.
Proof.
  destruct (diff_classifies_keys (leader_of Database) changed_by_app
              (sample_relation {[ "data" := text_a1_b2 ]}
                               (<["b" := "3"]> {[ "c" := "4" ]}))
              {[ "data" := text_a1_b2 ]}
              (<["b" := "3"]> {[ "c" := "4" ]})
              [(wide "a", Str (wide "1")); (wide "b", Str (wide "2"))]
              ltac:(vm_compute; reflexivity) ltac:(vm_compute; reflexivity)
              ltac:(vm_compute; reflexivity))
    as (d & rel' & Hd & Ha & Hdel & Hch).
  exists d, rel'. split_and!; [done|..].
  - apply Ha. split; [|by vm_compute].
    exists "c". split_and!; [done..|]. by eexists; vm_compute.
  - apply Hdel. split; [by eexists; vm_compute|]. intros (s & Hs & _ & [v Hv]).
    apply (inj wide "a" s) in Hs as <-. by vm_compute in Hv.
  - apply Hch. exists "b", "3", (Str (wide "2")). split_and!; by vm_compute.
Defined.

(** C8, as the code has it. The three sets are pairwise disjoint; [added],
    [deleted] and the keys common to the old and the new view cover the keys of
    both views, and [changed] lies within the common keys. *)
Theorem diff_partitions_keys self event rel own peer pairs :
  rel_data rel !! local_app self = Some own →
  rel_data rel !! app event = Some peer →
  loads (default "{}" (own !! "data")) = Some (Object pairs) →
  ∃ d rel',
    _diff self event rel = Returned (d, rel') ∧
    added d ## changed d ∧ added d ## deleted d ∧ changed d ## deleted d ∧
    added d ∪ deleted d ∪ (dom (dict_of_pairs pairs) ∩ keys (without_data peer))
      = dom (dict_of_pairs pairs) ∪ keys (without_data peer) ∧
    changed d ⊆ dom (dict_of_pairs pairs) ∩ keys (without_data peer).
Proof.
  intros Hown Hpeer Hold. eexists _, _.
  split; [by apply diff_returns|]. cbn [added deleted changed].
  set (old_keys := dom (dict_of_pairs pairs)). set (new_keys := keys (without_data peer)).
  split_and!; try set_solver.
  apply set_eq. intros k.
  destruct (decide (k ∈ old_keys)), (decide (k ∈ new_keys)); set_solver.
Qed.

Lemma diff_partitions_keys_witness :
  ∃ d rel',
    _diff (leader_of Database) changed_by_app
      (sample_relation {[ "data" := text_a1_b2 ]}
                       (<["b" := "3"]> {[ "c" := "4" ]}))
    = Returned (d, rel') ∧
    added d ## deleted d ∧
    changed d ⊆ dom (dict_of_pairs [(wide "a", Str (wide "1")); (wide "b", Str (wide "2"))])
                ∩ keys (without_data (<["b" := "3"]> {[ "c" := "4" ]})).
Proof.
  destruct (diff_partitions_keys (leader_of Database) changed_by_app
              (sample_relation {[ "data" := text_a1_b2 ]}
                               (<["b" := "3"]> {[ "c" := "4" ]}))
              {[ "data" := text_a1_b2 ]}
              (<["b" := "3"]> {[ "c" := "4" ]})
              [(wide "a", Str (wide "1")); (wide "b", Str (wide "2"))]
              ltac:(vm_compute; reflexivity) ltac:(vm_compute; reflexivity)
              ltac:(vm_compute; reflexivity))
    as (d & rel' & Hd & _ & Had & _ & _ & Hch).
  by exists d, rel'.
Defined.

(** C8, as it is worded, fails on a deleted key: with the old view
    [{"a": "1"}] (what [dumps] writes for it) and an empty peer bag, ["a"] is a key of the old view that
    is in none of [added], [changed] and the common keys. *)
Lemma partition_without_deleted_counterexample :
  loads text_a1 = Some (Object [(wide "a", Str (wide "1"))]) ∧
  ∃ d rel',
    _diff (leader_of Database) changed_by_app
      (sample_relation {[ "data" := text_a1 ]} ∅) = Returned (d, rel') ∧
    wide "a" ∈ dom (dict_of_pairs [(wide "a", Str (wide "1"))]) ∪ keys (without_data ∅) ∧
    wide "a" ∉ added d ∪ changed d
               ∪ (dom (dict_of_pairs [(wide "a", Str (wide "1"))]) ∩ keys (without_data ∅)).
Proof.
  split; [by vm_compute|]. eexists _, _.
  split; [vm_compute; reflexivity|]. split; compute_done.
Qed.

End Classification.

(** ** The snapshot *)

Section Snapshot.
Import Json.

Implicit Types (self : Provider) (event : RelationChangedEvent) (rel : Relation).
Implicit Types (own peer view : gmap string string) (k : list N).

Lemma dom_dict_of_dumped view :
  dom (dict_of_pairs (decoded <$> map_to_list view)) = keys view.
Proof.
  rewrite dict_of_dumped. apply set_eq. intros k.
  rewrite elem_of_keys, elem_of_dom, lookup_kmap_is_Some by apply _.
  by setoid_rewrite lookup_fmap; setoid_rewrite fmap_is_Some.
Qed.

Lemma lookup_snapshot own (text : string) :
  ({[ "data" := text ]} ∪ own) !! "data" = Some text.
Proof. by rewrite lookup_union_l', lookup_singleton_eq by (by rewrite lookup_singleton_eq). Qed.

(** The peer bag as the provider sees it once the snapshot is stored: the
    same bag, or the provider's own bag when the event names the local
    application. *)
Lemma saved_lookup_peer self event rel own peer view :
  rel_data rel !! local_app self = Some own →
  rel_data rel !! app event = Some peer →
  ∃ peer', rel_data (saved self rel own view) !! app event = Some peer' ∧
           without_data peer' = without_data peer.
Proof.
  intros Hown Hpeer. cbn [saved with_data rel_data].
  destruct (decide (local_app self = app event)) as [Heq|Hne].
  - rewrite <-Heq, lookup_insert_eq. eexists; split; [done|].
    rewrite without_data_snapshot. congruence.
  - rewrite lookup_insert_ne by done. eauto.
Qed.

Lemma saved_twice self rel own view :
  saved self (saved self rel own view) ({[ "data" := dumps view ]} ∪ own) view
  = saved self rel own view.
Proof.
  unfold saved, with_data. cbn [rel_id rel_app rel_data]. f_equal.
  rewrite insert_insert_eq. f_equal.
  by rewrite (assoc_L (∪)), (idemp_L (∪)).
Qed.

(** A diff against the snapshot of the very view it is given is empty. *)
Lemma diff_against_own_snapshot self event rel own peer :
  rel_data rel !! local_app self = Some own →
  rel_data rel !! app event = Some peer →
  own !! "data" = Some (dumps (without_data peer)) →
  _diff self event rel = Returned (no_diff, saved self rel own (without_data peer)).
Proof.
  intros Hown Hpeer Hdata.
  rewrite (diff_returns self event rel own peer
             (decoded <$> map_to_list (without_data peer)) Hown Hpeer)
    by (rewrite Hdata; apply loads_dumps).
  do 2 f_equal. unfold no_diff.
  f_equal; [rewrite dom_dict_of_dumped; set_solver| |rewrite dom_dict_of_dumped; set_solver].
  apply set_eq. intros k. rewrite elem_of_changed. split; [|set_solver].
  intros (s & v & o & -> & Hv & Ho & Hne).
  rewrite dict_of_dumped, lookup_kmap, lookup_fmap, Hv in Ho by apply _.
  by simplify_eq/=.
Qed.

(** C5. Two diffs in a row over the same peer view: the second one returns
    the empty delta (and leaves the relation as the first one left it). *)
Theorem diff_twice_is_empty self event rel d1 rel1 :
  _diff self event rel = Returned (d1, rel1) →
  _diff self event rel1 = Returned ({| added := ∅; changed := ∅; deleted := ∅ |}, rel1).
Proof.
  intros Hfirst.
  destruct (diff_returned_inv _ _ _ _ _ Hfirst) as (own & peer & pairs & Hown & Hpeer & Hold).
  rewrite (diff_returns _ _ _ _ _ _ Hown Hpeer Hold) in Hfirst.
  injection Hfirst as _ <-.
  destruct (saved_lookup_peer self event rel own peer (without_data peer) Hown Hpeer)
    as (peer' & Hpeer' & Hview).
  rewrite (diff_against_own_snapshot self event _ ({[ "data" := dumps (without_data peer) ]} ∪ own) peer').
  - by rewrite Hview, saved_twice.
  - cbn [saved with_data rel_data]. by rewrite lookup_insert_eq.
  - done.
  - by rewrite Hview, lookup_snapshot.
Qed.

Lemma diff_twice_is_empty_witness :
  ∃ d1 rel1,
    _diff (leader_of Database) changed_by_app
      (sample_relation ∅ (<["database" := "app_db"]> {[ "extra-user-roles" := "CREATEDB" ]}))
    = Returned (d1, rel1) ∧
    _diff (leader_of Database) changed_by_app rel1
    = Returned ({| added := ∅; changed := ∅; deleted := ∅ |}, rel1).
Proof.
  eexists _, _. split; [vm_compute; reflexivity|].
  apply (diff_twice_is_empty (leader_of Database) changed_by_app
           (sample_relation ∅ (<["database" := "app_db"]> {[ "extra-user-roles" := "CREATEDB" ]}))
           {| added := {[ wide "database"; wide "extra-user-roles" ]};
              changed := ∅; deleted := ∅ |}).
  vm_compute; reflexivity.
Defined.

(** A guarded write whose fields do not name ["data"] leaves every snapshot
    of the model as it was. *)
Lemma update_preserves_snapshot self (relation_id : Z) (fields : gmap string string)
    (model : Model) (i : Z) :
  fields !! "data" = None →
  snapshot_of self (_update_relation_data self relation_id fields model).2 i
  = snapshot_of self model i.
Proof.
  intros Hfields. unfold _update_relation_data.
  destruct (is_leader (local_unit self)); [|done].
  destruct (model !! relation_id) as [rel|] eqn:Hrel; [|done].
  destruct (rel_data rel !! local_app self) as [own|] eqn:Hown; [|done].
  cbn [snd]. unfold snapshot_of.
  destruct (decide (relation_id = i)) as [<-|Hne].
  - rewrite lookup_insert_eq, Hrel. cbn. rewrite lookup_insert_eq, Hown. cbn.
    by rewrite lookup_bag_update_None.
  - by rewrite lookup_insert_ne.
Qed.

(** None of the setters names ["data"]. *)
Lemma setter_preserves_snapshot (c : setter_call) self (relation_id : Z)
    (model : Model) (i : Z) :
  snapshot_of self (call_setter c self relation_id model).2 i = snapshot_of self model i.
Proof. destruct c; by apply update_preserves_snapshot. Qed.

(** C6. Right after a diff, whatever the three sets hold, the value under
    ["data"] in the provider's bag is the serialization of the peer bag
    without its ["data"] key. The setters never write that key, and a handler
    leaves the relation either untouched or as [_diff] left it. *)
Theorem snapshot_is_peer_view self event rel own peer pairs :
  rel_data rel !! local_app self = Some own →
  rel_data rel !! app event = Some peer →
  loads (default "{}" (own !! "data")) = Some (Object pairs) →
  ∃ d rel' own' peer',
    _diff self event rel = Returned (d, rel') ∧
    rel_data rel' !! local_app self = Some own' ∧
    rel_data rel' !! app event = Some peer' ∧
    own' !! "data" = Some (dumps (without_data peer')) ∧
    (∀ (c : setter_call) (relation_id i : Z) (model : Model),
       snapshot_of self (call_setter c self relation_id model).2 i = snapshot_of self model i) ∧
    (relation_after (_on_relation_changed self event rel) = rel ∨
     relation_after (_on_relation_changed self event rel) = rel').
Proof.
  intros Hown Hpeer Hold.
  destruct (saved_lookup_peer self event rel own peer (without_data peer) Hown Hpeer)
    as (peer' & Hpeer' & Hview).
  pose proof (diff_returns _ _ _ _ _ _ Hown Hpeer Hold) as Hdiff.
  eexists _, _, _, peer'. split; [exact Hdiff|]. split_and!.
  - cbn [saved with_data rel_data]. by rewrite lookup_insert_eq.
  - done.
  - by rewrite Hview, lookup_snapshot.
  - intros. apply setter_preserves_snapshot.
  - unfold _on_relation_changed, DatabaseProvides_on_relation_changed,
      KafkaProvides_on_relation_changed, ZookeeperProvides_on_relation_changed,
      on_relation_changed.
    destruct (flavor self), (is_leader (local_unit self)); cbn [negb]; auto;
      rewrite Hdiff; case_bool_decide; auto; by destruct (resolve _ _); auto.
Qed.

Lemma snapshot_is_peer_view_witness :
  ∃ d rel',
    _diff (leader_of Kafka) changed_by_unit
      (sample_relation (<["username" := "u1"]> {[ "data" := text_topic_t ]})
                       {[ "topic" := "t" ]})
    = Returned (d, rel') ∧ d = no_diff ∧
    rel_data rel' !! "provider"
    = Some (<["username" := "u1"]> {[ "data" := text_topic_t ]}).
Proof.
  destruct (snapshot_is_peer_view (leader_of Kafka) changed_by_unit
              (sample_relation (<["username" := "u1"]> {[ "data" := text_topic_t ]})
                               {[ "topic" := "t" ]})
              (<["username" := "u1"]> {[ "data" := text_topic_t ]})
              {[ "topic" := "t" ]}
              [(wide "topic", Str (wide "t"))]
              ltac:(vm_compute; reflexivity) ltac:(vm_compute; reflexivity)
              ltac:(vm_compute; reflexivity))
    as (d & rel' & own' & peer' & Hd & _).
  exists d, rel'. split; [done|].
  vm_compute in Hd. injection Hd as <- <-. split; vm_compute; reflexivity.
Defined.

(** C2, as the code has it. A stored snapshot that is not valid JSON makes
    [_diff] raise [JSONDecodeError]; on the leader the handler ends with that
    exception, emits nothing and leaves the relation as it was. Such a
    snapshot is always a stored one: without the key, ["{}"] is decoded. *)
Theorem malformed_snapshot_raises self event rel own :
  rel_data rel !! local_app self = Some own →
  loads (default "{}" (own !! "data")) = None →
  _diff self event rel = Raised JSONDecodeError ∧
  (is_leader (local_unit self) = true →
   _on_relation_changed self event rel
   = {| relation_after := rel; emitted := []; result := Raised JSONDecodeError |}) ∧
  is_Some (own !! "data").
Proof.
  intros Hown Hbad.
  assert (_diff self event rel = Raised JSONDecodeError) as Hdiff.
  { unfold _diff. by rewrite Hown, Hbad. }
  split_and!; [done| |].
  - intros Hleader.
    unfold _on_relation_changed, DatabaseProvides_on_relation_changed,
      KafkaProvides_on_relation_changed, ZookeeperProvides_on_relation_changed,
      on_relation_changed.
    by destruct (flavor self); rewrite Hleader, Hdiff.
  - destruct (own !! "data"); [by eexists|]. by vm_compute in Hbad.
Qed.

Lemma malformed_snapshot_raises_witness :
  _diff (leader_of Database) changed_by_app
    (sample_relation {[ "data" := "{database" ]} {[ "database" := "app_db" ]})
  = Raised JSONDecodeError.
Proof.
  apply (malformed_snapshot_raises (leader_of Database) changed_by_app
           (sample_relation {[ "data" := "{database" ]} {[ "database" := "app_db" ]})
           {[ "data" := "{database" ]}
           ltac:(vm_compute; reflexivity) ltac:(vm_compute; reflexivity)).
Defined.

(** C2, as it is worded, fails: with the malformed snapshot
    [{database] the diff does not complete with the snapshot read as
    empty, it raises. *)
Lemma tolerant_recovery_counterexample :
  loads "{database" = None ∧
  (∀ r, _diff (leader_of Database) changed_by_app
          (sample_relation {[ "data" := "{database" ]} {[ "database" := "app_db" ]})
        ≠ Returned r) ∧
  result (_on_relation_changed (leader_of Database) changed_by_app
            (sample_relation {[ "data" := "{database" ]} {[ "database" := "app_db" ]}))
  = Raised JSONDecodeError.
Proof. split_and!; [by vm_compute|by intros r; vm_compute|by vm_compute]. Qed.

End Snapshot.

(** ** Leader gating *)

Section Leadership.

Implicit Types (self : Provider) (event : RelationChangedEvent) (rel : Relation).
Implicit Types (own fields : gmap string string) (model : Model).

(** C3, as the code has it. A guarded write by a unit that is not the leader
    returns without touching the model. By the leader, it rewrites in the
    provider's bag of that relation exactly the keys of [fields]: a field
    with a value other than the empty string is set to that value, a field
    with the empty string is removed; every other key of the bag, every other
    bag of the relation and every other relation are as before. *)
Theorem guarded_write_merges self (relation_id : Z) fields model rel own :
  model !! relation_id = Some rel →
  rel_data rel !! local_app self = Some own →
  if is_leader (local_unit self) then
    ∃ own',
      _update_relation_data self relation_id fields model
      = (Returned (),
         <[relation_id := with_data rel (<[local_app self := own']> (rel_data rel))]> model) ∧
      (∀ key value, fields !! key = Some value → value ≠ EmptyString →
                    own' !! key = Some value) ∧
      (∀ key, fields !! key = Some EmptyString → own' !! key = None) ∧
      (∀ key, fields !! key = None → own' !! key = own !! key)
  else
    _update_relation_data self relation_id fields model = (Returned (), model).
Proof.
  intros Hrel Hown. unfold _update_relation_data.
  destruct (is_leader (local_unit self)); [|done].
  rewrite Hrel, Hown. eexists. split; [done|]. split_and!.
  - intros key value Hkey Hvalue. rewrite lookup_bag_update, Hkey. by case_decide.
  - intros key Hkey. by rewrite lookup_bag_update, Hkey.
  - intros key Hkey. by apply lookup_bag_update_None.
Qed.

Lemma guarded_write_merges_witness :
  ∃ own',
    set_credentials (leader_of Database) 7 "u1" "p1"
      {[ 7%Z := sample_relation (<["endpoints" := "h1:5432"]> {[ "data" := "{}" ]}) ∅ ]}
    = (Returned (),
       <[7%Z := with_data (sample_relation (<["endpoints" := "h1:5432"]> {[ "data" := "{}" ]}) ∅)
                  (<["provider" := own']>
                     (rel_data (sample_relation
                                  (<["endpoints" := "h1:5432"]> {[ "data" := "{}" ]}) ∅)))]>
         {[ 7%Z := sample_relation (<["endpoints" := "h1:5432"]> {[ "data" := "{}" ]}) ∅ ]}) ∧
    own' !! "username" = Some "u1" ∧ own' !! "password" = Some "p1" ∧
    own' !! "endpoints" = Some "h1:5432" ∧ own' !! "data" = Some "{}".
Proof.
  pose proof (guarded_write_merges (leader_of Database) 7
                (<["username" := "u1"]> {[ "password" := "p1" ]})
                {[ 7%Z := sample_relation (<["endpoints" := "h1:5432"]> {[ "data" := "{}" ]}) ∅ ]}
                (sample_relation (<["endpoints" := "h1:5432"]> {[ "data" := "{}" ]}) ∅)
                (<["endpoints" := "h1:5432"]> {[ "data" := "{}" ]})) as Hwrite.
  destruct Hwrite as (own' & Hcall & Hset & _ & Hkeep); [vm_compute; reflexivity..|].
  exists own'. split; [exact Hcall|]. split_and!.
  - apply Hset; [vm_compute; reflexivity|done].
  - apply Hset; [vm_compute; reflexivity|done].
  - rewrite Hkeep by (vm_compute; reflexivity). vm_compute; reflexivity.
  - rewrite Hkeep by (vm_compute; reflexivity). vm_compute; reflexivity.
Defined.

(** C3, as it is worded, fails on a field with the empty string: after
    [set_version(7, EmptyString)] by the leader on a bag that holds
    [version], the bag has no [version] key; the field is not upserted. *)
Lemma upsert_of_empty_value_counterexample :
  ∃ model' rel' own',
    set_version (leader_of Database) 7 EmptyString
      {[ 7%Z := sample_relation (<["version" := "14"]> {[ "data" := "{}" ]}) ∅ ]}
    = (Returned (), model') ∧
    model' !! 7%Z = Some rel' ∧
    rel_data rel' !! "provider" = Some own' ∧
    ({[ "version" := EmptyString ]} : gmap string string) !! "version" = Some EmptyString ∧
    own' !! "version" = None ∧
    own' !! "version" ≠ ({[ "version" := EmptyString ]} : gmap string string) !! "version".
Proof.
  eexists _, _, _. split_and!; [vm_compute; reflexivity..|by vm_compute].
Qed.

(** C9. On a unit that is not the leader, the handler of every flavor returns
    at once: the relation (the provider's bag and its snapshot included) is
    what it was and no event is emitted. Hence a handler that changed the
    relation ran on the leader. *)
Theorem follower_ignores_notification self event rel :
  is_leader (local_unit self) = false →
  _on_relation_changed self event rel
  = {| relation_after := rel; emitted := []; result := Returned () |} ∧
  (∀ self' event' rel',
     relation_after (_on_relation_changed self' event' rel') ≠ rel' →
     is_leader (local_unit self') = true).
Proof.
  intros Hfollower. split.
  - unfold _on_relation_changed, DatabaseProvides_on_relation_changed,
      KafkaProvides_on_relation_changed, ZookeeperProvides_on_relation_changed,
      on_relation_changed.
    by destruct (flavor self); rewrite Hfollower.
  - intros self' event' rel'.
    unfold _on_relation_changed, DatabaseProvides_on_relation_changed,
      KafkaProvides_on_relation_changed, ZookeeperProvides_on_relation_changed,
      on_relation_changed.
    by destruct (flavor self'), (is_leader (local_unit self')).
Qed.

Lemma follower_ignores_notification_witness :
  _on_relation_changed (follower_of Kafka) changed_by_unit
    (sample_relation ∅ {[ "topic" := "t" ]})
  = {| relation_after := sample_relation ∅ {[ "topic" := "t" ]};
       emitted := []; result := Returned () |}.
Proof.
  apply (follower_ignores_notification (follower_of Kafka) changed_by_unit
           (sample_relation ∅ {[ "topic" := "t" ]}) ltac:(vm_compute; reflexivity)).
Defined.

End Leadership.

(** ** Payload accessors *)

Section Accessors.

(** C10. Each accessor answers with what the peer bag holds under its key in
    the relation as it is when the accessor is called, whatever the relation
    held when the event was emitted; for a key the bag lacks, it returns
    [None] and raises nothing. *)
Theorem accessors_read_peer_bag (e : TypedEvent) (rel : Relation) (bag : gmap string string) :
  rel_data rel !! rel_app rel = Some bag →
  (database e rel = Returned (bag !! "database") ∧
   topic e rel = Returned (bag !! "topic") ∧
   chroot e rel = Returned (bag !! "chroot") ∧
   extra_user_roles e rel = Returned (bag !! "extra-user-roles")) ∧
  (bag !! "database" = None → database e rel = Returned None) ∧
  (bag !! "topic" = None → topic e rel = Returned None) ∧
  (bag !! "chroot" = None → chroot e rel = Returned None) ∧
  (bag !! "extra-user-roles" = None → extra_user_roles e rel = Returned None).
Proof.
  intros Hbag. unfold database, topic, chroot, extra_user_roles, peer_get.
  rewrite Hbag. split_and!; try done; by intros ->.
Qed.

Lemma accessors_read_peer_bag_witness :
  database {| kind := DatabaseRequestedEvent; relation := 7;
              event_app := "application"; event_unit := None |}
    (sample_relation ∅ {[ "database" := "app_db" ]}) = Returned (Some "app_db") ∧
  extra_user_roles {| kind := DatabaseRequestedEvent; relation := 7;
                      event_app := "application"; event_unit := None |}
    (sample_relation ∅ {[ "database" := "app_db" ]}) = Returned None.
Proof.
  destruct (accessors_read_peer_bag
              {| kind := DatabaseRequestedEvent; relation := 7;
                 event_app := "application"; event_unit := None |}
              (sample_relation ∅ {[ "database" := "app_db" ]})
              {[ "database" := "app_db" ]} ltac:(vm_compute; reflexivity))
    as ((Hdb & _) & _ & _ & _ & Hroles).
  split; [exact Hdb|]. apply Hroles. vm_compute; reflexivity.
Defined.

End Accessors.

(** ** Event derivation *)

Section Derivation.
Import Json.

Implicit Types (self : Provider) (event : RelationChangedEvent) (rel : Relation).
Implicit Types (own peer : gmap string string) (d : Diff).

Ltac unfold_handler :=
  unfold _on_relation_changed, DatabaseProvides_on_relation_changed,
    KafkaProvides_on_relation_changed, ZookeeperProvides_on_relation_changed,
    on_relation_changed.

(** Without the flavor's key in [added], the leader's handler emits nothing
    and returns. *)
Lemma no_event_without_addition self event rel d rel' :
  is_leader (local_unit self) = true →
  _diff self event rel = Returned (d, rel') →
  wide (trigger_key (flavor self)) ∉ added d →
  _on_relation_changed self event rel
  = {| relation_after := rel'; emitted := []; result := Returned () |}.
Proof.
  intros Hleader Hdiff Hkey. unfold_handler.
  destruct (flavor self); cbn [trigger_key] in Hkey;
    by rewrite Hleader, Hdiff, bool_decide_false.
Qed.

(** With ["database"] in [added], the database provider emits one
    [DatabaseRequestedEvent] for the relation, with the application and the
    unit of the notification. *)
Lemma database_requested_emitted self event rel d rel' :
  flavor self = Database →
  is_leader (local_unit self) = true →
  _diff self event rel = Returned (d, rel') →
  wide "database" ∈ added d →
  _on_relation_changed self event rel
  = {| relation_after := rel';
       emitted := [ {| kind := DatabaseRequestedEvent; relation := rel_id rel';
                       event_app := app event; event_unit := unit event |} ];
       result := Returned () |}.
Proof.
  intros Hflavor Hleader Hdiff Hkey. unfold_handler.
  by rewrite Hflavor, Hleader, Hdiff, bool_decide_true.
Qed.

(** With their key in [added], the Kafka and the ZooKeeper providers look up
    [topic_created] on themselves, where no such attribute exists. *)
Lemma topic_created_not_found self event rel d rel' :
  flavor self ≠ Database →
  is_leader (local_unit self) = true →
  _diff self event rel = Returned (d, rel') →
  wide (trigger_key (flavor self)) ∈ added d →
  _on_relation_changed self event rel
  = {| relation_after := rel'; emitted := [];
       result := Raised (AttributeError "topic_created") |}.
Proof.
  intros Hflavor Hleader Hdiff Hkey. unfold_handler.
  destruct (flavor self); [done|..]; cbn [trigger_key] in Hkey;
    by rewrite Hleader, Hdiff, bool_decide_true.
Qed.

(** An emitted event tells that the diff returned on the leader. *)
Lemma emitted_inv self event rel :
  emitted (_on_relation_changed self event rel) ≠ [] →
  ∃ d rel', _diff self event rel = Returned (d, rel') ∧
            relation_after (_on_relation_changed self event rel) = rel'.
Proof.
  unfold_handler.
  destruct (flavor self), (is_leader (local_unit self)); cbn [negb emitted]; try done;
    (destruct (_diff self event rel) as [[d rel']|]; [|done]);
    case_bool_decide; try done; destruct (resolve _ _);
    cbn [emitted relation_after]; try done; eauto.
Qed.

(** C7. On a database provider, after a notification that raised an event
    for a peer bag holding ["database"], a notification that finds the same
    snapshot and another value under ["database"] raises none: the key is in
    [changed], not in [added]. In general, whenever the flavor's key is not
    in [added], the handler emits nothing. *)
Theorem changed_key_raises_no_event self event1 event2 rel0 rel1
    peer0 own0' own1 peer1 (x y : string) :
  flavor self = Database →
  is_leader (local_unit self) = true →
  rel_data rel0 !! app event1 = Some peer0 →
  peer0 !! "database" = Some x →
  emitted (_on_relation_changed self event1 rel0) ≠ [] →
  rel_data (relation_after (_on_relation_changed self event1 rel0)) !! local_app self
    = Some own0' →
  rel_data rel1 !! local_app self = Some own1 →
  own1 !! "data" = own0' !! "data" →
  rel_data rel1 !! app event2 = Some peer1 →
  peer1 !! "database" = Some y →
  x ≠ y →
  (∃ d2 rel2,
     _diff self event2 rel1 = Returned (d2, rel2) ∧
     wide "database" ∈ changed d2 ∧ (wide "database" ∉ added d2) ∧
     _on_relation_changed self event2 rel1
     = {| relation_after := rel2; emitted := []; result := Returned () |}) ∧
  (∀ self' event' rel' d' r',
     is_leader (local_unit self') = true →
     _diff self' event' rel' = Returned (d', r') →
     wide (trigger_key (flavor self')) ∉ added d' →
     emitted (_on_relation_changed self' event' rel') = []).
Proof.
  intros Hflavor Hleader Hpeer0 Hx Hraised Hown0' Hown1 Hsnap Hpeer1 Hy Hxy.
  split; [|by intros; erewrite no_event_without_addition].
  destruct (emitted_inv _ _ _ Hraised) as (d1 & rel0' & Hfirst & Hafter).
  rewrite Hafter in Hown0'.
  destruct (diff_returned_inv _ _ _ _ _ Hfirst) as (own0 & peer0_ & pairs0 & Hown0 & Hp & Hold0).
  rewrite Hpeer0 in Hp. injection Hp as <-.
  rewrite (diff_returns _ _ _ _ _ _ Hown0 Hpeer0 Hold0) in Hfirst.
  injection Hfirst as _ <-.
  cbn [saved with_data rel_data] in Hown0'. rewrite lookup_insert_eq in Hown0'.
  injection Hown0' as <-. rewrite lookup_snapshot in Hsnap.
  assert (loads (default "{}" (own1 !! "data"))
          = Some (Object (decoded <$> map_to_list (without_data peer0)))) as Hold1.
  { rewrite Hsnap. apply loads_dumps. }
  pose proof (diff_returns _ _ _ _ _ _ Hown1 Hpeer1 Hold1) as Hsecond.
  assert (dict_of_pairs (decoded <$> map_to_list (without_data peer0)) !! wide "database"
          = Some (Str (wide x))) as Hold_db.
  { rewrite dict_of_dumped, lookup_kmap, lookup_fmap by apply _.
    by rewrite (proj2 (lookup_without_data peer0 "database" x)). }
  eexists _, _. split; [exact Hsecond|]. cbn [added changed].
  assert (wide "database" ∉
          keys (without_data peer1)
          ∖ dom (dict_of_pairs (decoded <$> map_to_list (without_data peer0)))) as Hnot_added.
  { rewrite elem_of_difference, elem_of_dom, Hold_db. intros [_ []]. by eexists. }
  split_and!; [|done|].
  - apply elem_of_changed. exists "database", y, (Str (wide x)).
    split_and!; [done|by apply lookup_without_data|done|].
    intros [= Heq]. by apply (inj wide) in Heq.
  - apply (no_event_without_addition _ _ _ _ _ Hleader Hsecond).
    by rewrite Hflavor.
Qed.

Lemma changed_key_raises_no_event_witness :
  emitted (_on_relation_changed (leader_of Database) changed_by_app
             (sample_relation ∅ {[ "database" := "X" ]}))
  = [ {| kind := DatabaseRequestedEvent; relation := 7;
         event_app := "application"; event_unit := None |} ] ∧
  ∃ d2 rel2,
    _diff (leader_of Database) changed_by_app
      (sample_relation {[ "data" := text_database_X ]} {[ "database" := "Y" ]})
    = Returned (d2, rel2) ∧
    wide "database" ∈ changed d2 ∧ (wide "database" ∉ added d2) ∧
    _on_relation_changed (leader_of Database) changed_by_app
      (sample_relation {[ "data" := text_database_X ]} {[ "database" := "Y" ]})
    = {| relation_after := rel2; emitted := []; result := Returned () |}.
Proof.
  split; [vm_compute; reflexivity|].
  pose proof (changed_key_raises_no_event (leader_of Database)
                changed_by_app changed_by_app
                (sample_relation ∅ {[ "database" := "X" ]})
                (sample_relation {[ "data" := text_database_X ]} {[ "database" := "Y" ]})
                {[ "database" := "X" ]}
                {[ "data" := text_database_X ]}
                {[ "data" := text_database_X ]}
                {[ "database" := "Y" ]} "X" "Y") as Hscenario.
  destruct Hscenario as [Hsecond _];
    [first [vm_compute; reflexivity | by vm_compute]..|exact Hsecond].
Defined.

End Derivation.

(** ** The provider classes *)

Section ClassStatements.

(** A base listed before one of its own subclasses leaves no candidate in the
    first round: the base is in the tail of the order of the subclass, and
    the subclass is in the tail of the list of the bases. *)
Lemma pmerge_base_before_subclass (base sub : string) (above rest : list string)
    (rounds : nat) :
  base ∈ rest →
  pmerge (S rounds) [base :: above; sub :: rest; [base; sub]] = Inconsistent.
Proof.
  intros Hsub.
  assert (tail_contains (sub :: rest) base = true) as Hbase
    by (by apply bool_decide_eq_true_2).
  assert (tail_contains [base; sub] sub = true) as Hlisted
    by (apply bool_decide_eq_true_2; set_solver).
  cbn [pmerge List.filter unfinished omap list_omap head candidate forallb].
  rewrite Hbase, Hlisted. cbn [negb andb]. by rewrite !andb_false_r.
Qed.

Lemma class_statement_base_before_subclass (classes : Classes) (name base sub : string)
    (above rest : list string) :
  assoc base classes = Some (base :: above) →
  assoc sub classes = Some (sub :: rest) →
  base ∈ rest →
  class_statement classes name [base; sub] = TypeError [base; sub].
Proof.
  intros Hbase Hsub Hin. unfold class_statement. cbn [orders_of].
  rewrite Hbase, Hsub.
  change ([base :: above; sub :: rest] ++ [[base; sub]])%list
    with [base :: above; sub :: rest; [base; sub]].
  by rewrite pmerge_base_before_subclass.
Qed.

(** C1, where the code departs from it. With the classes of the framework
    and of [resource_provides] defined, the import of the module of every
    flavor defines the event classes of the flavor and then raises
    [TypeError] at the class statement of the provider: the bases are
    [BaseResourceProvides, TlsEnabledRelation], the first is a base of the
    second, and no resolution order is consistent. No provider class of any
    flavor is bound, so there is no provider to handle a notification and no
    event of any kind is emitted. *)
Theorem provider_class_statements_raise :
  ∃ framework classes,
    class_statements [] imported_classes = Bound framework ∧
    class_statements framework resource_provides = Bound classes ∧
    assoc "BaseResourceProvides" classes
    = Some ["BaseResourceProvides"; "Object"; "ABC"; "object"] ∧
    assoc "TlsEnabledRelation" classes
    = Some ["TlsEnabledRelation"; "BaseResourceProvides"; "Object"; "ABC"; "object"] ∧
    ∀ f : Flavor,
      (∃ events,
         class_statements classes (take 3 (module_of f)) = Bound events ∧
         drop 3 (module_of f)
         = [ (provider_class f, ["BaseResourceProvides"; "TlsEnabledRelation"]) ] ∧
         class_statement events (provider_class f)
           ["BaseResourceProvides"; "TlsEnabledRelation"]
         = TypeError ["BaseResourceProvides"; "TlsEnabledRelation"]) ∧
      class_statements classes (module_of f)
      = TypeError ["BaseResourceProvides"; "TlsEnabledRelation"].
Proof.
  eexists _, _. split; [vm_compute; reflexivity|]. split; [vm_compute; reflexivity|].
  split; [vm_compute; reflexivity|]. split; [vm_compute; reflexivity|].
  intros f. split.
  - destruct f; eexists; (split; [vm_compute; reflexivity|]); (split; [done|]);
      (apply (class_statement_base_before_subclass _ _ _ _ ["Object"; "ABC"; "object"]
                ["BaseResourceProvides"; "Object"; "ABC"; "object"]);
       [vm_compute; reflexivity | vm_compute; reflexivity | set_solver]).
  - destruct f; vm_compute; reflexivity.
Qed.

End ClassStatements.

(** * Further properties *)

(** ** More on the diff engine *)

Section DiffMore.
Import Json.

Implicit Types (self : Provider) (event : RelationChangedEvent) (rel : Relation).
Implicit Types (own peer view : gmap string string) (k : list N).

Lemma loads_empty_object : loads "{}" = Some (Object []).
Proof. vm_compute; reflexivity. Qed.

(** X1. The first diff of a relation, when the provider's bag has no
    ["data"] key yet: every key of the peer view is [added], nothing is
    [changed] or [deleted], and the view is stored. *)
Theorem diff_first_observation self event rel own peer :
  rel_data rel !! local_app self = Some own →
  rel_data rel !! app event = Some peer →
  own !! "data" = None →
  _diff self event rel
  = Returned ({| added := keys (without_data peer); changed := ∅; deleted := ∅ |},
              saved self rel own (without_data peer)).
Proof.
  intros Hown Hpeer Hnone.
  rewrite (diff_returns self event rel own peer [] Hown Hpeer)
    by (rewrite Hnone; apply loads_empty_object).
  do 2 f_equal. change (dict_of_pairs []) with (∅ : gmap (list N) value).
  rewrite dom_empty_L. f_equal; [set_solver| |set_solver].
  apply set_eq. intros k. rewrite elem_of_filter. set_solver.
Qed.

Lemma diff_first_observation_witness :
  ∃ rel',
    _diff (leader_of Database) changed_by_app
      (sample_relation {[ "username" := "u1" ]} (<["database" := "app_db"]> {[ "data" := "x" ]}))
    = Returned ({| added := {[ wide "database" ]}; changed := ∅; deleted := ∅ |}, rel').
Proof.
  eexists.
  rewrite (diff_first_observation (leader_of Database) changed_by_app _
             {[ "username" := "u1" ]} (<["database" := "app_db"]> {[ "data" := "x" ]}))
    by (vm_compute; reflexivity).
  assert (keys (without_data (<["database" := "app_db"]> {[ "data" := "x" ]}))
          = {[ wide "database" ]}) as -> by (vm_compute; reflexivity).
  reflexivity.
Defined.

(** X2. A diff that returns has written one thing: the ["data"] key of the
    provider's bag. The identity of the relation, the bag of every other
    entity and every other key of the provider's bag are as before. *)
Theorem diff_writes_only_the_snapshot self event rel d rel' :
  _diff self event rel = Returned (d, rel') →
  rel_id rel' = rel_id rel ∧ rel_app rel' = rel_app rel ∧
  (∀ entity, entity ≠ local_app self → rel_data rel' !! entity = rel_data rel !! entity) ∧
  ∃ own own',
    rel_data rel !! local_app self = Some own ∧
    rel_data rel' !! local_app self = Some own' ∧
    ∀ key, key ≠ "data" → own' !! key = own !! key.
Proof.
  intros Hdiff.
  destruct (diff_returned_inv _ _ _ _ _ Hdiff) as (own & peer & pairs & Hown & Hpeer & Hold).
  rewrite (diff_returns _ _ _ _ _ _ Hown Hpeer Hold) in Hdiff. injection Hdiff as _ <-.
  cbn [saved with_data rel_id rel_app rel_data]. split_and!; [done..| |].
  - intros entity Hne. by rewrite lookup_insert_ne.
  - eexists own, _. rewrite lookup_insert_eq. split_and!; [done..|].
    intros key Hkey. rewrite lookup_union_r; [done|]. by rewrite lookup_singleton_ne.
Qed.

Lemma diff_writes_only_the_snapshot_witness :
  ∃ d rel',
    _diff (leader_of Database) changed_by_app
      (sample_relation {[ "username" := "u1" ]} {[ "database" := "app_db" ]})
    = Returned (d, rel') ∧
    rel_id rel' = 7%Z ∧
    rel_data rel' !! "application" = Some {[ "database" := "app_db" ]}.
Proof.
  eexists _, _. split; [vm_compute; reflexivity|].
  pose proof (diff_writes_only_the_snapshot (leader_of Database) changed_by_app
                (sample_relation {[ "username" := "u1" ]} {[ "database" := "app_db" ]})) as Hframe.
  edestruct Hframe as (Hid & _ & Hother & _); [vm_compute; reflexivity|].
  split; [exact Hid|]. by rewrite Hother.
Defined.

End DiffMore.

Section DiffMore2.
Import Json.

Implicit Types (self : Provider) (event : RelationChangedEvent) (rel : Relation).
Implicit Types (own peer view : gmap string string) (k : list N).
Implicit Types (old : gmap (list N) value).

Lemma dom_as_decoded view : dom (as_decoded view) = keys view.
Proof.
  unfold as_decoded. apply set_eq. intros k.
  rewrite elem_of_keys, elem_of_dom, lookup_kmap_is_Some by apply _.
  by setoid_rewrite lookup_fmap; setoid_rewrite fmap_is_Some.
Qed.

Lemma lookup_as_decoded view (s : string) :
  as_decoded view !! wide s = (λ v, Str (wide v)) <$> view !! s.
Proof. unfold as_decoded. by rewrite lookup_kmap, lookup_fmap by apply _. Qed.

Lemma differs_false (o : value) (v : string) :
  differs (Some o) (Some v) = false ↔ o = Str (wide v).
Proof.
  split; [|by intros ->; cbn; rewrite bool_decide_true].
  destruct o; cbn; try done. case_bool_decide; [by intros _; f_equal|done].
Qed.

(** The three sets are empty exactly when the old dictionary is the view. *)
Lemma diff_sets_empty_iff old view :
  keys view ∖ dom old = ∅ ∧
  filter (λ key, differs (old !! key) ((kmap wide view : gmap (list N) string) !! key) = true)
         (dom old ∩ keys view) = ∅ ∧
  dom old ∖ keys view = ∅
  ↔ old = as_decoded view.
Proof.
  split.
  - intros (Hadded & Hchanged & Hdeleted). apply map_eq. intros k.
    destruct (decide (k ∈ keys view)) as [Hin|Hout].
    + pose proof Hin as (s & -> & [v Hv])%elem_of_keys.
      rewrite lookup_as_decoded, Hv. cbn.
      destruct (old !! wide s) as [o|] eqn:Ho.
      * f_equal. apply differs_false.
        destruct (differs (Some o) (Some v)) eqn:Hd; [|done].
        assert (wide s ∈ (∅ : gset (list N))) as []%not_elem_of_empty.
        rewrite <-Hchanged. apply elem_of_filter. rewrite Ho, lookup_kmap, Hv by apply _.
        split; [done|]. apply elem_of_intersection. split; [|done].
        apply elem_of_dom. by eexists.
      * assert (wide s ∈ (∅ : gset (list N))) as []%not_elem_of_empty.
        rewrite <-Hadded. apply elem_of_difference. split; [done|].
        by apply not_elem_of_dom.
    + transitivity (@None value).
      * apply not_elem_of_dom. intros Hin. apply (not_elem_of_empty (C:=gset (list N)) k).
        rewrite <-Hdeleted. by apply elem_of_difference.
      * symmetry. apply not_elem_of_dom. by rewrite dom_as_decoded.
  - intros ->.
    split_and!; [rewrite dom_as_decoded; set_solver| |rewrite dom_as_decoded; set_solver].
    apply set_eq. intros k. rewrite elem_of_changed. split; [|set_solver].
    intros (s & v & o & -> & Hv & Ho & Hne). rewrite lookup_as_decoded, Hv in Ho.
    by simplify_eq/=.
Qed.

(** X3. The delta is empty exactly when nothing changed: all three sets
    are empty if and only if the old snapshot mapping holds the same keys as
    the peer view, each with the same string. *)
Theorem diff_empty_iff_unchanged self event rel own peer pairs :
  rel_data rel !! local_app self = Some own →
  rel_data rel !! app event = Some peer →
  loads (default "{}" (own !! "data")) = Some (Object pairs) →
  ∃ d rel',
    _diff self event rel = Returned (d, rel') ∧
    (d = no_diff ↔ dict_of_pairs pairs = as_decoded (without_data peer)).
Proof.
  intros Hown Hpeer Hold. eexists _, _. split; [by apply diff_returns|].
  rewrite <-diff_sets_empty_iff. unfold no_diff. split.
  - by intros [= -> -> ->].
  - by intros (-> & -> & ->).
Qed.

Lemma diff_empty_iff_unchanged_witness :
  ∃ d rel',
    _diff (leader_of Database) changed_by_app
      (sample_relation {[ "data" := text_a1 ]} {[ "a" := "2" ]}) = Returned (d, rel') ∧
    d ≠ no_diff.
Proof.
  pose proof (diff_empty_iff_unchanged (leader_of Database) changed_by_app
                (sample_relation {[ "data" := text_a1 ]} {[ "a" := "2" ]})
                {[ "data" := text_a1 ]} {[ "a" := "2" ]}
                [(wide "a", Str (wide "1"))]) as Hiff.
  destruct Hiff as (d & rel' & Hd & Hiff); [vm_compute; reflexivity..|].
  exists d, rel'. split; [exact Hd|]. intros Hno%Hiff.
  assert (dict_of_pairs [(wide "a", Str (wide "1"))] !! wide "a"
          = as_decoded (without_data {[ "a" := "2" ]}) !! wide "a") as Habs
    by (by rewrite Hno).
  vm_compute in Habs. discriminate Habs.
Defined.

(** X4. What a diff stores is what the next diff reads: the stored text
    decodes to an object whose dictionary is the peer view, string for
    string, and the reserved key is not part of it. *)
Theorem stored_snapshot_decodes_to_view self event rel d rel' :
  _diff self event rel = Returned (d, rel') →
  ∃ own' peer' text pairs,
    rel_data rel' !! local_app self = Some own' ∧
    rel_data rel' !! app event = Some peer' ∧
    own' !! "data" = Some text ∧
    loads text = Some (Object pairs) ∧
    dict_of_pairs pairs = as_decoded (without_data peer') ∧
    dict_of_pairs pairs !! wide "data" = None.
Proof.
  intros Hdiff.
  destruct (diff_returned_inv _ _ _ _ _ Hdiff) as (own & peer & pairs & Hown & Hpeer & Hold).
  rewrite (diff_returns _ _ _ _ _ _ Hown Hpeer Hold) in Hdiff. injection Hdiff as _ <-.
  destruct (saved_lookup_peer self event rel own peer (without_data peer) Hown Hpeer)
    as (peer' & Hpeer' & Hview).
  eexists _, peer', _, _. split_and!.
  - cbn [saved with_data rel_data]. by rewrite lookup_insert_eq.
  - done.
  - apply lookup_snapshot.
  - apply loads_dumps.
  - by rewrite Hview, dict_of_dumped.
  - rewrite dict_of_dumped. fold (as_decoded (without_data peer)).
    rewrite lookup_as_decoded.
    destruct (without_data peer !! "data") as [v|] eqn:Hv; [|done].
    by apply lookup_without_data in Hv as [_ []].
Qed.

Lemma stored_snapshot_decodes_to_view_witness :
  ∃ own' text pairs,
    rel_data (saved (leader_of Kafka) (sample_relation ∅ {[ "topic" := "t" ]}) ∅
                (without_data {[ "topic" := "t" ]})) !! "provider" = Some own' ∧
    own' !! "data" = Some text ∧
    loads text = Some (Object pairs) ∧
    dict_of_pairs pairs = as_decoded (without_data {[ "topic" := "t" ]}).
Proof.
  pose proof (stored_snapshot_decodes_to_view (leader_of Kafka) changed_by_app
                (sample_relation ∅ {[ "topic" := "t" ]})
                {| added := keys (without_data {[ "topic" := "t" ]});
                   changed := ∅; deleted := ∅ |}
                (saved (leader_of Kafka) (sample_relation ∅ {[ "topic" := "t" ]}) ∅
                   (without_data {[ "topic" := "t" ]}))) as Hround.
  destruct Hround as (own' & peer' & text & pairs & Hown' & Hpeer' & Htext & Hload & Hdict & _).
  { vm_compute; reflexivity. }
  exists own', text, pairs. split_and!; [exact Hown'|exact Htext|exact Hload|].
  rewrite Hdict. vm_compute in Hpeer'. by injection Hpeer' as <-.
Defined.

(** X5. The reserved key is never reported as added or changed, whatever
    the peer writes under it. *)
Theorem reserved_key_is_not_diffed self event rel d rel' :
  _diff self event rel = Returned (d, rel') →
  (wide "data" ∉ added d) ∧ (wide "data" ∉ changed d).
Proof.
  intros Hdiff.
  destruct (diff_returned_inv _ _ _ _ _ Hdiff) as (own & peer & pairs & Hown & Hpeer & Hold).
  rewrite (diff_returns _ _ _ _ _ _ Hown Hpeer Hold) in Hdiff. injection Hdiff as <- _.
  cbn [added changed]. split.
  - rewrite elem_of_difference, elem_of_keys_without_data.
    by intros [(s & Hs%(inj wide) & Hne & _) _].
  - rewrite elem_of_changed.
    intros (s & v & o & <-%(inj wide) & Hv%lookup_without_data & _). by destruct Hv.
Qed.

Lemma reserved_key_is_not_diffed_witness :
  ∃ d rel',
    _diff (leader_of Database) changed_by_app
      (sample_relation ∅ (<["data" := "mine"]> {[ "database" := "app_db" ]}))
    = Returned (d, rel') ∧ (wide "data" ∉ added d).
Proof.
  eexists _, _. split; [vm_compute; reflexivity|].
  eapply (reserved_key_is_not_diffed (leader_of Database) changed_by_app
            (sample_relation ∅ (<["data" := "mine"]> {[ "database" := "app_db" ]}))).
  vm_compute; reflexivity.
Defined.

End DiffMore2.

(** ** More on the handlers *)

Section HandlersMore.
Import Json.

Implicit Types (self : Provider) (event : RelationChangedEvent) (rel : Relation).
Implicit Types (own peer view : gmap string string) (d : Diff).

Ltac unfold_handler :=
  unfold _on_relation_changed, DatabaseProvides_on_relation_changed,
    KafkaProvides_on_relation_changed, ZookeeperProvides_on_relation_changed,
    on_relation_changed.

(** A second diff right after a first one finds nothing and changes nothing. *)
Lemma diff_again self event rel d rel' :
  _diff self event rel = Returned (d, rel') →
  _diff self event rel' = Returned (no_diff, rel').
Proof.
  intros Hfirst.
  destruct (diff_returned_inv _ _ _ _ _ Hfirst) as (own & peer & pairs & Hown & Hpeer & Hold).
  rewrite (diff_returns _ _ _ _ _ _ Hown Hpeer Hold) in Hfirst.
  injection Hfirst as _ <-.
  destruct (saved_lookup_peer self event rel own peer (without_data peer) Hown Hpeer)
    as (peer' & Hpeer' & Hview).
  rewrite (diff_against_own_snapshot self event _
             ({[ "data" := dumps (without_data peer) ]} ∪ own) peer').
  - by rewrite Hview, saved_twice.
  - cbn [saved with_data rel_data]. by rewrite lookup_insert_eq.
  - done.
  - by rewrite Hview, lookup_snapshot.
Qed.

(** The handler of a leader whose diff returns, for every flavor. *)
Lemma handler_after_diff self event rel d rel' :
  is_leader (local_unit self) = true →
  _diff self event rel = Returned (d, rel') →
  _on_relation_changed self event rel
  = if bool_decide (wide (trigger_key (flavor self)) ∈ added d) then
      match flavor self with
      | Database =>
          {| relation_after := rel';
             emitted := [ {| kind := DatabaseRequestedEvent; relation := rel_id rel';
                             event_app := app event; event_unit := unit event |} ];
             result := Returned () |}
      | Kafka | Zookeeper =>
          {| relation_after := rel'; emitted := [];
             result := Raised (AttributeError "topic_created") |}
      end
    else {| relation_after := rel'; emitted := []; result := Returned () |}.
Proof.
  intros Hleader Hdiff. unfold_handler.
  destruct (flavor self); cbn [trigger_key]; rewrite Hleader, Hdiff; cbn [negb];
    by case_bool_decide.
Qed.

(** X6. Delivering a notification once more emits nothing: on the leader
    of any flavor, after a run whose diff returned, a second run on the
    relation as the first one left it finds an empty delta, returns, emits no
    event and leaves the relation as it is. *)
Theorem redelivery_is_silent self event rel d rel' :
  is_leader (local_unit self) = true →
  _diff self event rel = Returned (d, rel') →
  relation_after (_on_relation_changed self event rel) = rel' ∧
  _on_relation_changed self event rel'
  = {| relation_after := rel'; emitted := []; result := Returned () |}.
Proof.
  intros Hleader Hdiff. split.
  - rewrite (handler_after_diff _ _ _ _ _ Hleader Hdiff).
    by case_bool_decide; destruct (flavor self).
  - rewrite (handler_after_diff _ _ _ _ _ Hleader (diff_again _ _ _ _ _ Hdiff)).
    by rewrite bool_decide_false by set_solver.
Qed.

Lemma redelivery_is_silent_witness :
  emitted (_on_relation_changed (leader_of Database) changed_by_unit
             (sample_relation ∅ {[ "database" := "app_db" ]})) ≠ [] ∧
  emitted (_on_relation_changed (leader_of Database) changed_by_unit
             (relation_after (_on_relation_changed (leader_of Database) changed_by_unit
                                (sample_relation ∅ {[ "database" := "app_db" ]})))) = [].
Proof.
  split; [by vm_compute|].
  pose proof (redelivery_is_silent (leader_of Database) changed_by_unit
                (sample_relation ∅ {[ "database" := "app_db" ]})
                {| added := {[ wide "database" ]}; changed := ∅; deleted := ∅ |}
                (saved (leader_of Database) (sample_relation ∅ {[ "database" := "app_db" ]}) ∅
                   (without_data {[ "database" := "app_db" ]}))) as Hsilent.
  destruct Hsilent as [Hafter Hsecond]; [vm_compute; reflexivity..|].
  by rewrite Hafter, Hsecond.
Defined.

(** X7. The Kafka and the ZooKeeper handlers emit no event on any input.
    They end with [AttributeError] for [topic_created] exactly when they run
    on the leader, the diff returns and their key is in [added]. *)
Theorem kafka_and_zookeeper_never_emit self event rel :
  flavor self ≠ Database →
  emitted (_on_relation_changed self event rel) = [] ∧
  (result (_on_relation_changed self event rel) = Raised (AttributeError "topic_created")
   ↔ is_leader (local_unit self) = true ∧
     ∃ d rel', _diff self event rel = Returned (d, rel') ∧
               wide (trigger_key (flavor self)) ∈ added d).
Proof.
  intros Hflavor.
  destruct (is_leader (local_unit self)) eqn:Hleader.
  - destruct (_diff self event rel) as [[d rel']|e] eqn:Hdiff.
    + rewrite (handler_after_diff _ _ _ _ _ Hleader Hdiff).
      case_bool_decide as Hkey; destruct (flavor self); try done; cbn [emitted result];
        (split; [done|]); split; try done; try (by eauto 10);
        by intros (_ & d0 & rel0 & [= <- <-] & Hin).
    + unfold_handler.
      destruct (flavor self); try done; rewrite Hleader, Hdiff; cbn [negb emitted result];
        (split; [done|]); (split; [|by intros (_ & d0 & rel0 & Heq & _)]);
        intros [= ->]; unfold _diff in Hdiff; repeat case_match; simplify_eq.
  - unfold_handler.
    destruct (flavor self); try done; rewrite Hleader; cbn [negb emitted result];
      (split; [done|]); (split; [done|]); by intros [].
Qed.

Lemma kafka_and_zookeeper_never_emit_witness :
  emitted (_on_relation_changed (leader_of Zookeeper) changed_by_unit
             (sample_relation ∅ {[ "chroot" := "/c" ]})) = [].
Proof.
  apply (kafka_and_zookeeper_never_emit (leader_of Zookeeper) changed_by_unit
           (sample_relation ∅ {[ "chroot" := "/c" ]})).
  by vm_compute.
Defined.

(** X8. A request met by the failing [emit] is lost: the snapshot is stored
    before the event is emitted, so after a run that ended with
    [AttributeError] for [topic_created], the same notification delivered
    again returns and emits nothing. *)
Theorem failed_emit_loses_the_request self event rel :
  result (_on_relation_changed self event rel) = Raised (AttributeError "topic_created") →
  _on_relation_changed self event (relation_after (_on_relation_changed self event rel))
  = {| relation_after := relation_after (_on_relation_changed self event rel);
       emitted := []; result := Returned () |}.
Proof.
  intros Hfailed.
  destruct (is_leader (local_unit self)) eqn:Hleader.
  - destruct (_diff self event rel) as [[d rel']|e] eqn:Hdiff.
    + assert (relation_after (_on_relation_changed self event rel) = rel') as ->.
      { rewrite (handler_after_diff _ _ _ _ _ Hleader Hdiff).
        by case_bool_decide; destruct (flavor self). }
      rewrite (handler_after_diff _ _ _ _ _ Hleader (diff_again _ _ _ _ _ Hdiff)).
      by rewrite bool_decide_false by set_solver.
    + revert Hfailed. unfold_handler.
      destruct (flavor self); rewrite Hleader, Hdiff; cbn [negb result];
        intros [= ->]; unfold _diff in Hdiff; repeat case_match; simplify_eq.
  - revert Hfailed. unfold_handler.
    by destruct (flavor self); rewrite Hleader.
Qed.

Lemma failed_emit_loses_the_request_witness :
  result (_on_relation_changed (leader_of Kafka) changed_by_unit
            (sample_relation ∅ {[ "topic" := "t" ]}))
  = Raised (AttributeError "topic_created") ∧
  result (_on_relation_changed (leader_of Kafka) changed_by_unit
            (relation_after (_on_relation_changed (leader_of Kafka) changed_by_unit
                               (sample_relation ∅ {[ "topic" := "t" ]}))))
  = Returned ().
Proof.
  split; [vm_compute; reflexivity|].
  rewrite (failed_emit_loses_the_request (leader_of Kafka) changed_by_unit
             (sample_relation ∅ {[ "topic" := "t" ]})) by (vm_compute; reflexivity).
  reflexivity.
Defined.

End HandlersMore.

(** ** Events and payloads *)

Section EventsMore.
Import Json.

Implicit Types (self : Provider) (event : RelationChangedEvent) (rel : Relation).
Implicit Types (own peer view : gmap string string) (d : Diff).

Ltac unfold_handler :=
  unfold _on_relation_changed, DatabaseProvides_on_relation_changed,
    KafkaProvides_on_relation_changed, ZookeeperProvides_on_relation_changed,
    on_relation_changed.

Lemma records_loads own view :
  records own view →
  loads (default "{}" (own !! "data")) = Some (Object (decoded <$> map_to_list view)).
Proof.
  intros [->|[-> ->]]; [apply loads_dumps|].
  rewrite map_to_list_empty. apply loads_empty_object.
Qed.

Lemma in_view_lookup peer (s : string) :
  s ≠ "data" → in_view peer (wide s) ↔ is_Some (peer !! s).
Proof.
  intros Hs. split; [by intros (s' & <-%(inj wide) & _ & Hin)|]. intros Hin. by exists s.
Qed.

(** X9. Events follow appearance. On the leader of a database provider whose
    bag records [view] as the last diffed view, the handler returns, stores
    the current peer view, and emits one [DatabaseRequestedEvent] (for this
    relation, with the application and unit of the notification) exactly when
    the peer bag holds ["database"] and [view] did not; otherwise it emits
    nothing. *)
Theorem database_event_follows_appearance self event rel own peer view :
  flavor self = Database →
  is_leader (local_unit self) = true →
  rel_data rel !! local_app self = Some own →
  rel_data rel !! app event = Some peer →
  records own view →
  _on_relation_changed self event rel
  = {| relation_after := saved self rel own (without_data peer);
       emitted :=
         if bool_decide (is_Some (peer !! "database") ∧ view !! "database" = None)
         then [ {| kind := DatabaseRequestedEvent; relation := rel_id rel;
                   event_app := app event; event_unit := unit event |} ]
         else [];
       result := Returned () |} ∧
  records ({[ "data" := dumps (without_data peer) ]} ∪ own) (without_data peer).
Proof.
  intros Hflavor Hleader Hown Hpeer Hrecords.
  split; [|by left; apply lookup_snapshot].
  rewrite (handler_after_diff _ _ _ _ _ Hleader
             (diff_returns _ _ _ _ _ _ Hown Hpeer (records_loads _ _ Hrecords))).
  rewrite Hflavor. cbn [trigger_key added].
  rewrite (bool_decide_ext _ (is_Some (peer !! "database") ∧ view !! "database" = None)).
  - by case_bool_decide.
  - rewrite elem_of_difference, elem_of_keys_without_data, in_view_lookup by done.
    rewrite dict_of_dumped. fold (as_decoded view).
    by rewrite not_elem_of_dom, lookup_as_decoded, fmap_None.
Qed.

Lemma database_event_follows_appearance_witness :
  emitted (_on_relation_changed (leader_of Database) changed_by_unit
             (sample_relation {[ "data" := text_a1 ]} (<["database" := "app_db"]> {[ "a" := "1" ]})))
  = [ {| kind := DatabaseRequestedEvent; relation := 7;
         event_app := "application"; event_unit := Some "application/0" |} ].
Proof.
  pose proof (database_event_follows_appearance (leader_of Database) changed_by_unit
                (sample_relation {[ "data" := text_a1 ]}
                                 (<["database" := "app_db"]> {[ "a" := "1" ]}))
                {[ "data" := text_a1 ]} (<["database" := "app_db"]> {[ "a" := "1" ]})
                {[ "a" := "1" ]}) as Hemit.
  destruct Hemit as [-> _];
    [vm_compute; reflexivity..|left; vm_compute; reflexivity|].
  vm_compute; reflexivity.
Defined.

(** X10. An emitted event has its payload. Whatever the flavor and the
    unit, if a handler emits an event and the notification came from the
    remote application of the relation, then [database] read on that event
    right after the handler returns the value the peer bag holds. *)
Theorem emitted_event_has_its_database self event rel (e : TypedEvent) :
  e ∈ emitted (_on_relation_changed self event rel) →
  rel_app rel = app event →
  ∃ peer x,
    rel_data rel !! app event = Some peer ∧ peer !! "database" = Some x ∧
    database e (relation_after (_on_relation_changed self event rel)) = Returned (Some x).
Proof.
  intros He Happ.
  destruct (is_leader (local_unit self)) eqn:Hleader;
    [|by revert He; unfold_handler; destruct (flavor self); rewrite Hleader;
         cbn [negb emitted]; intros ?%elem_of_nil].
  destruct (_diff self event rel) as [[d rel']|err] eqn:Hdiff;
    [|by revert He; unfold_handler; destruct (flavor self); rewrite Hleader, Hdiff;
         cbn [negb emitted]; intros ?%elem_of_nil].
  rewrite (handler_after_diff _ _ _ _ _ Hleader Hdiff) in He |- *.
  case_bool_decide as Hkey; [|by apply elem_of_nil in He].
  destruct (flavor self) eqn:Hflavor; [|by apply elem_of_nil in He..].
  cbn [trigger_key relation_after] in *.
  destruct (diff_returned_inv _ _ _ _ _ Hdiff) as (own & peer & pairs & Hown & Hpeer & Hold).
  rewrite (diff_returns _ _ _ _ _ _ Hown Hpeer Hold) in Hdiff. injection Hdiff as <- <-.
  cbn [added] in Hkey.
  apply elem_of_difference in Hkey as [Hin _].
  apply elem_of_keys_without_data, in_view_lookup in Hin as [x Hx]; [|done].
  exists peer, x. split_and!; [done..|].
  destruct (saved_lookup_peer self event rel own peer (without_data peer) Hown Hpeer)
    as (peer' & Hpeer' & Hview).
  unfold database, peer_get. cbn [saved with_data rel_app]. rewrite Happ.
  cbn [saved with_data] in Hpeer'. rewrite Hpeer'. f_equal.
  assert (without_data peer' !! "database" = Some x) as [? _]%lookup_without_data; [|done].
  rewrite Hview. by apply lookup_without_data.
Qed.

Lemma emitted_event_has_its_database_witness :
  database {| kind := DatabaseRequestedEvent; relation := 7;
              event_app := "application"; event_unit := None |}
    (relation_after (_on_relation_changed (leader_of Database) changed_by_app
                       (sample_relation ∅ {[ "database" := "app_db" ]})))
  = Returned (Some "app_db").
Proof.
  pose proof (emitted_event_has_its_database (leader_of Database) changed_by_app
                (sample_relation ∅ {[ "database" := "app_db" ]})
                {| kind := DatabaseRequestedEvent; relation := 7;
                   event_app := "application"; event_unit := None |}) as Hpayload.
  destruct Hpayload as (peer & x & Hpeer & Hx & ->);
    [vm_compute; apply list_elem_of_here|reflexivity|].
  vm_compute in Hpeer. injection Hpeer as <-. vm_compute in Hx. by injection Hx as <-.
Defined.

(** X11. A snapshot that is valid JSON but not an object (a list, a string,
    a number, [null]) makes the diff raise [AttributeError]; on the leader
    the handler of every flavor ends with it, emits nothing and leaves the
    relation, snapshot included, as it was. *)
Theorem non_object_snapshot_raises self event rel own peer (v : value) :
  rel_data rel !! local_app self = Some own →
  rel_data rel !! app event = Some peer →
  loads (default "{}" (own !! "data")) = Some v →
  (∀ pairs, v ≠ Object pairs) →
  _diff self event rel = Raised (AttributeError "keys") ∧
  (is_leader (local_unit self) = true →
   _on_relation_changed self event rel
   = {| relation_after := rel; emitted := []; result := Raised (AttributeError "keys") |}).
Proof.
  intros Hown Hpeer Hold Hv.
  assert (_diff self event rel = Raised (AttributeError "keys")) as Hdiff.
  { unfold _diff. rewrite Hown, Hold, Hpeer. destruct v; try done. by destruct (Hv pairs). }
  split; [done|]. intros Hleader. unfold_handler.
  by destruct (flavor self); rewrite Hleader, Hdiff.
Qed.

Lemma non_object_snapshot_raises_witness :
  _on_relation_changed (leader_of Database) changed_by_app
    (sample_relation {[ "data" := "[]" ]} {[ "database" := "app_db" ]})
  = {| relation_after := sample_relation {[ "data" := "[]" ]} {[ "database" := "app_db" ]};
       emitted := []; result := Raised (AttributeError "keys") |}.
Proof.
  pose proof (non_object_snapshot_raises (leader_of Database) changed_by_app
                (sample_relation {[ "data" := "[]" ]} {[ "database" := "app_db" ]})
                {[ "data" := "[]" ]} {[ "database" := "app_db" ]} (Array [])) as Hraises.
  destruct Hraises as [_ Hrun]; [vm_compute; reflexivity..|done|].
  by apply Hrun.
Defined.

End EventsMore.

(** ** More on the writes *)

Section WritesMore.
Import Json.

Implicit Types (self : Provider) (event : RelationChangedEvent) (rel : Relation).
Implicit Types (own peer view fields : gmap string string) (model : Model).

Ltac unfold_handler :=
  unfold _on_relation_changed, DatabaseProvides_on_relation_changed,
    KafkaProvides_on_relation_changed, ZookeeperProvides_on_relation_changed,
    on_relation_changed.

(** X12. Two guarded writes in a row are one write of both field sets, the
    later one winning on common keys: the credentials and the endpoints set
    one after the other are all in the bag. *)
Theorem guarded_writes_compose self (relation_id : Z) fields1 fields2 model rel own :
  is_leader (local_unit self) = true →
  model !! relation_id = Some rel →
  rel_data rel !! local_app self = Some own →
  _update_relation_data self relation_id fields2
    (_update_relation_data self relation_id fields1 model).2
  = _update_relation_data self relation_id (fields2 ∪ fields1) model.
Proof.
  intros Hleader Hrel Hown. unfold _update_relation_data.
  rewrite Hleader, Hrel, Hown. cbn [snd].
  rewrite lookup_insert_eq. cbn [with_data rel_data rel_id rel_app].
  rewrite lookup_insert_eq, insert_insert_eq.
  by rewrite insert_insert_eq, bag_update_compose.
Qed.

Lemma guarded_writes_compose_witness :
  ∃ model' rel' own',
    set_endpoints (leader_of Database) 7 "h1:5432"
      (set_credentials (leader_of Database) 7 "u1" "p1"
         {[ 7%Z := sample_relation {[ "data" := "{}" ]} ∅ ]}).2 = (Returned (), model') ∧
    model' !! 7%Z = Some rel' ∧ rel_data rel' !! "provider" = Some own' ∧
    own' !! "username" = Some "u1" ∧ own' !! "password" = Some "p1" ∧
    own' !! "endpoints" = Some "h1:5432".
Proof.
  unfold set_endpoints, set_credentials.
  rewrite (guarded_writes_compose (leader_of Database) 7 _ _ _
             (sample_relation {[ "data" := "{}" ]} ∅) {[ "data" := "{}" ]})
    by (vm_compute; reflexivity).
  eexists _, _, _. split_and!; vm_compute; reflexivity.
Defined.

(** X13. Guarded writes of field sets with no common key commute. *)
Theorem disjoint_writes_commute self (relation_id : Z) fields1 fields2 model :
  fields1 ##ₘ fields2 →
  (_update_relation_data self relation_id fields2
     (_update_relation_data self relation_id fields1 model).2).2
  = (_update_relation_data self relation_id fields1
       (_update_relation_data self relation_id fields2 model).2).2.
Proof.
  intros Hdisjoint. unfold _update_relation_data.
  destruct (is_leader (local_unit self)); [|done].
  destruct (model !! relation_id) as [rel|] eqn:Hrel; cbn [snd]; [|by rewrite Hrel].
  destruct (rel_data rel !! local_app self) as [own|] eqn:Hown; cbn [snd];
    [|by rewrite Hrel, Hown].
  rewrite !lookup_insert_eq. cbn [with_data rel_data rel_id rel_app snd].
  rewrite !lookup_insert_eq. cbn [snd]. rewrite !insert_insert_eq.
  do 3 f_equal. by apply bag_update_commute.
Qed.

Lemma disjoint_writes_commute_witness :
  (set_version (leader_of Kafka) 7 "3.2"
     (set_tls (leader_of Kafka) 7 "True" {[ 7%Z := sample_relation ∅ ∅ ]}).2).2
  = (set_tls (leader_of Kafka) 7 "True"
       (set_version (leader_of Kafka) 7 "3.2" {[ 7%Z := sample_relation ∅ ∅ ]}).2).2.
Proof.
  apply (disjoint_writes_commute (leader_of Kafka) 7 {[ "tls" := "True" ]}
           {[ "version" := "3.2" ]}).
  apply map_disjoint_singleton_l. vm_compute; reflexivity.
Defined.

Lemma setter_fields (c : setter_call) self (relation_id : Z) :
  ∃ fields, fields !! "data" = None ∧
            call_setter c self relation_id = _update_relation_data self relation_id fields.
Proof. destruct c; eexists; (split; [|reflexivity]); by simplify_map_eq. Qed.

(** How the relation of a setter call comes out: the same relation, or the
    same with fields other than ["data"] merged into the provider's bag. *)
Lemma setter_on_relation (c : setter_call) self rel (o : outcome ()) (model' : Model) rel' :
  call_setter c self (rel_id rel) {[ rel_id rel := rel ]} = (o, model') →
  model' !! rel_id rel = Some rel' →
  rel' = rel ∨
  ∃ fields own, fields !! "data" = None ∧ rel_data rel !! local_app self = Some own ∧
                rel' = with_data rel (<[local_app self := bag_update fields own]>
                                        (rel_data rel)).
Proof.
  destruct (setter_fields c self (rel_id rel)) as (fields & Hfields & ->).
  unfold _update_relation_data.
  destruct (is_leader (local_unit self));
    [|intros [= <- <-]; rewrite lookup_singleton_eq; intros [= <-]; by left].
  rewrite lookup_singleton_eq.
  destruct (rel_data rel !! local_app self) as [own|] eqn:Hown;
    [|intros [= <- <-]; rewrite lookup_singleton_eq; intros [= <-]; by left].
  intros [= <- <-]. rewrite lookup_insert_eq. intros [= <-]. right. eauto.
Qed.

(** Two relations with the same snapshot and the same peer bag get the same
    delta, or the same exception. *)
Lemma diff_depends_on_snapshot_and_peer self event rel1 rel2 own1 own2 :
  rel_data rel1 !! local_app self = Some own1 →
  rel_data rel2 !! local_app self = Some own2 →
  own1 !! "data" = own2 !! "data" →
  rel_data rel1 !! app event = rel_data rel2 !! app event →
  match _diff self event rel1, _diff self event rel2 with
  | Returned (d1, _), Returned (d2, _) => d1 = d2
  | Raised e1, Raised e2 => e1 = e2
  | _, _ => False
  end.
Proof.
  intros Hown1 Hown2 Hdata Hpeer. unfold _diff.
  rewrite Hown1, Hown2, Hdata, Hpeer.
  destruct (loads _) as [v|]; [|done].
  destruct (rel_data rel2 !! app event); [|done]. by destruct v.
Qed.

Lemma diff_keeps_id self event rel (d : Diff) rel' :
  _diff self event rel = Returned (d, rel') → rel_id rel' = rel_id rel.
Proof.
  intros Hdiff.
  destruct (diff_returned_inv _ _ _ _ _ Hdiff) as (own & peer & pairs & Hown & Hpeer & Hold).
  rewrite (diff_returns _ _ _ _ _ _ Hown Hpeer Hold) in Hdiff. by injection Hdiff as _ <-.
Qed.

(** X14. The setters are invisible to the diff. When the notifying
    application is not the provider's own, a setter call on the relation
    changes neither the events the handler emits at the next notification
    nor how it ends. *)
Theorem setters_do_not_disturb_the_handler (c : setter_call) self event rel
    (o : outcome ()) (model' : Model) rel' :
  app event ≠ local_app self →
  call_setter c self (rel_id rel) {[ rel_id rel := rel ]} = (o, model') →
  model' !! rel_id rel = Some rel' →
  emitted (_on_relation_changed self event rel') = emitted (_on_relation_changed self event rel) ∧
  result (_on_relation_changed self event rel') = result (_on_relation_changed self event rel).
Proof.
  intros Hne Hcall Hrel'.
  destruct (setter_on_relation c self rel o model' rel' Hcall Hrel')
    as [->|(fields & own & Hfields & Hown & ->)]; [done|].
  set (rel' := with_data rel _).
  assert (rel_data rel' !! local_app self = Some (bag_update fields own)) as Hown'
    by (subst rel'; cbn; by rewrite lookup_insert_eq).
  assert (rel_data rel' !! app event = rel_data rel !! app event) as Hpeer
    by (subst rel'; cbn; by rewrite lookup_insert_ne).
  pose proof (diff_depends_on_snapshot_and_peer self event rel' rel (bag_update fields own)
                own Hown' Hown (lookup_bag_update_None _ _ _ Hfields) Hpeer) as Hsame.
  destruct (is_leader (local_unit self)) eqn:Hleader;
    [|by unfold_handler; destruct (flavor self); rewrite Hleader].
  destruct (_diff self event rel') as [[d1 r1]|e1] eqn:H1,
           (_diff self event rel) as [[d2 r2]|e2] eqn:H2; try done; subst.
  - rewrite (handler_after_diff _ _ _ _ _ Hleader H1),
      (handler_after_diff _ _ _ _ _ Hleader H2).
    rewrite (diff_keeps_id _ _ _ _ _ H1), (diff_keeps_id _ _ _ _ _ H2).
    by case_bool_decide; destruct (flavor self).
  - unfold_handler. by destruct (flavor self); rewrite Hleader, H1, H2.
Qed.

Lemma setters_do_not_disturb_the_handler_witness :
  emitted (_on_relation_changed (leader_of Database) changed_by_app
             (with_data (sample_relation ∅ {[ "database" := "app_db" ]})
                (<["provider" := {[ "version" := "14" ]} ∪ ∅]>
                   (rel_data (sample_relation ∅ {[ "database" := "app_db" ]})))))
  = emitted (_on_relation_changed (leader_of Database) changed_by_app
               (sample_relation ∅ {[ "database" := "app_db" ]})).
Proof.
  eapply (setters_do_not_disturb_the_handler (SetVersion "14") (leader_of Database)
            changed_by_app (sample_relation ∅ {[ "database" := "app_db" ]})).
  - by vm_compute.
  - vm_compute; reflexivity.
  - vm_compute; reflexivity.
Defined.

End WritesMore.

(** ** Fetching and traces *)

Section FetchAndTraces.
Import Json.

Implicit Types (self : Provider) (event : RelationChangedEvent) (rel : Relation).
Implicit Types (own peer view fields : gmap string string) (model : Model).

Ltac unfold_handler :=
  unfold _on_relation_changed, DatabaseProvides_on_relation_changed,
    KafkaProvides_on_relation_changed, ZookeeperProvides_on_relation_changed,
    on_relation_changed.

Lemma fetch_raised (e : exn) (l : list Relation) : foldl fetch_step (Raised e) l = Raised e.
Proof. by induction l. Qed.

Lemma fetch_returns (l : list Relation) :
  ∀ data0 : gmap Z (gmap string string),
    NoDup (rel_id <$> l) →
    Forall (λ r, is_Some (rel_data r !! rel_app r)) l →
    ∃ data,
      foldl fetch_step (Returned data0) l = Returned data ∧
      (∀ r, r ∈ l → data !! rel_id r = without_data <$> rel_data r !! rel_app r) ∧
      (∀ i, i ∉ rel_id <$> l → data !! i = data0 !! i).
Proof.
  induction l as [|r l IH]; intros data0 Hnodup Hbags.
  - exists data0. split_and!; [done| |done]. by intros r ?%elem_of_nil.
  - apply NoDup_cons in Hnodup as [Hfresh Hnodup].
    apply Forall_cons in Hbags as [[bag Hbag] Hbags]. cbn [foldl fetch_step]. rewrite Hbag.
    destruct (IH (<[rel_id r := without_data bag]> data0) Hnodup Hbags)
      as (data & Hfold & Hin & Hout).
    exists data. split_and!; [done| |].
    + intros r' [->|Hr']%elem_of_cons; [|by apply Hin].
      by rewrite Hout, lookup_insert_eq, Hbag.
    + intros i Hi. rewrite fmap_cons, not_elem_of_cons in Hi. destruct Hi as [Hne Hi].
      by rewrite Hout, lookup_insert_ne.
Qed.

Lemma fetch_fails (l : list Relation) (data0 : gmap Z (gmap string string)) :
  Exists (λ r, rel_data r !! rel_app r = None) l →
  ∃ entity, foldl fetch_step (Returned data0) l = Raised (KeyError entity).
Proof.
  revert data0. induction l as [|r l IH]; intros data0 Hex; [by apply Exists_nil in Hex|].
  cbn [foldl fetch_step].
  destruct (rel_data r !! rel_app r) as [bag|] eqn:Hbag.
  - apply Exists_cons in Hex as [Hr|Hl]; [by rewrite Hbag in Hr|by apply IH].
  - rewrite fetch_raised. by eexists.
Qed.

(** X15. [fetch_relation_data] on a model that indexes its relations by
    their id. If every relation has a bag for its remote application, it
    returns, for exactly the ids of the model, that bag without the ["data"]
    key; if some relation has none, it raises [KeyError]. *)
Theorem fetch_relation_data_gives_peer_views model :
  (∀ i rel, model !! i = Some rel → rel_id rel = i) →
  ((∀ i rel, model !! i = Some rel → is_Some (rel_data rel !! rel_app rel)) →
   ∃ data,
     fetch_relation_data model = Returned data ∧
     (∀ i, data !! i = rel ← model !! i; without_data <$> rel_data rel !! rel_app rel) ∧
     (∀ i bag, data !! i = Some bag → bag !! "data" = None)) ∧
  ((∃ i rel, model !! i = Some rel ∧ rel_data rel !! rel_app rel = None) →
   ∃ entity, fetch_relation_data model = Raised (KeyError entity)).
Proof.
  intros Hindexed. unfold fetch_relation_data, relations.
  assert (rel_id <$> (map_to_list model).*2 = (map_to_list model).*1) as Hids.
  { apply list_eq. intros n. rewrite !list_lookup_fmap.
    destruct (map_to_list model !! n) as [[i rel]|] eqn:Hn; [|done]. cbn. f_equal.
    apply Hindexed. apply elem_of_map_to_list. by eapply list_elem_of_lookup_2. }
  split.
  - intros Hbags.
    destruct (fetch_returns (map_to_list model).*2 ∅) as (data & Hfold & Hin & Hout).
    { rewrite Hids. apply NoDup_fst_map_to_list. }
    { apply Forall_fmap, Forall_forall. intros [i rel] Hrel%elem_of_map_to_list.
      by eapply Hbags. }
    exists data. split; [done|].
    assert (∀ i, data !! i = rel ← model !! i; without_data <$> rel_data rel !! rel_app rel)
      as Hdata.
    { intros i. destruct (model !! i) as [rel|] eqn:Hrel; cbn.
      - rewrite <-(Hindexed _ _ Hrel). apply Hin.
        apply list_elem_of_fmap. exists (i, rel). by rewrite elem_of_map_to_list.
      - rewrite Hout, lookup_empty; [done|]. rewrite Hids.
        intros ([i' rel] & -> & Hin')%list_elem_of_fmap.
        apply elem_of_map_to_list in Hin'. cbn in Hrel. congruence. }
    split; [done|]. intros i bag. rewrite Hdata.
    destruct (model !! i) as [rel|]; cbn; [|done].
    destruct (rel_data rel !! rel_app rel) as [peer|]; cbn; [|done].
    intros [= <-]. destruct (without_data peer !! "data") as [v|] eqn:Hv; [|done].
    by apply lookup_without_data in Hv as [_ []].
  - intros (i & rel & Hrel & Hnone). apply fetch_fails.
    apply Exists_exists. exists rel. split; [|done].
    apply list_elem_of_fmap. exists (i, rel). by rewrite elem_of_map_to_list.
Qed.

Lemma fetch_relation_data_gives_peer_views_witness :
  fetch_relation_data
    {[ 7%Z := sample_relation {[ "data" := "{}" ]}
                (<["database" := "app_db"]> {[ "data" := "x" ]}) ]}
  = Returned {[ 7%Z := {[ "database" := "app_db" ]} ]}.
Proof.
  pose proof (fetch_relation_data_gives_peer_views
                {[ 7%Z := sample_relation {[ "data" := "{}" ]}
                            (<["database" := "app_db"]> {[ "data" := "x" ]}) ]}) as Hfetch.
  destruct Hfetch as [Hreturns _].
  { intros i rel [<- <-]%lookup_singleton_Some. reflexivity. }
  destruct Hreturns as (data & -> & Hdata & _).
  { intros i rel [<- <-]%lookup_singleton_Some. by eexists; vm_compute. }
  f_equal. apply map_eq. intros i. rewrite Hdata.
  destruct (decide (i = 7%Z)) as [->|Hne]; [vm_compute; reflexivity|].
  by rewrite !lookup_singleton_ne.
Defined.

(** How a handler leaves the relation: as it was, or as its diff left it. *)
Lemma handler_relation_after self event rel :
  relation_after (_on_relation_changed self event rel) = rel ∨
  ∃ d, _diff self event rel
       = Returned (d, relation_after (_on_relation_changed self event rel)).
Proof.
  unfold_handler.
  destruct (flavor self), (is_leader (local_unit self)); cbn [negb relation_after]; auto;
    (destruct (_diff self event rel) as [[d rel']|]; [|by auto]);
    case_bool_decide; cbn; eauto.
Qed.

Lemma step_decodable self rel rel' :
  step self rel rel' → decodable self rel → decodable self rel'.
Proof.
  intros Hstep Hok.
  destruct Hstep as [rel entity bag Hne|rel rel' c o model' Hcall Hrel'|rel event].
  - intros own Hown. cbn in Hown. rewrite lookup_insert_ne in Hown by done. by apply Hok.
  - destruct (setter_on_relation c self rel o model' rel' Hcall Hrel')
      as [->|(fields & own & Hfields & Hown & ->)]; [done|].
    intros own'. cbn. rewrite lookup_insert_eq. intros [= <-].
    rewrite lookup_bag_update_None by done. by apply Hok.
  - destruct (handler_relation_after self event rel) as [->|[d Hdiff]]; [done|].
    destruct (diff_returned_inv _ _ _ _ _ Hdiff)
      as (own & peer & pairs & Hown & Hpeer & Hold).
    rewrite (diff_returns _ _ _ _ _ _ Hown Hpeer Hold) in Hdiff.
    injection Hdiff as _ Hafter. rewrite <-Hafter.
    intros own'. cbn. rewrite lookup_insert_eq. intros [= <-].
    rewrite lookup_snapshot. eexists. apply loads_dumps.
Qed.

(** X16. The library keeps its snapshot decodable. From a relation whose
    snapshot is absent or decodes to an object, whatever other entities write
    in their bags, whatever setters the provider calls and whatever
    notifications it handles, the snapshot still decodes to an object, and no
    handler run ends with [JSONDecodeError] or with the [AttributeError] of a
    snapshot that is not an object. *)
Theorem snapshot_stays_decodable self rel rel' :
  decodable self rel →
  rtc (step self) rel rel' →
  decodable self rel' ∧
  ∀ event,
    result (_on_relation_changed self event rel') ≠ Raised JSONDecodeError ∧
    result (_on_relation_changed self event rel') ≠ Raised (AttributeError "keys").
Proof.
  intros Hok Hsteps.
  assert (decodable self rel') as Hok'.
  { induction Hsteps as [|rel0 rel1 rel2 Hstep _ IH]; [done|].
    apply IH. by eapply step_decodable. }
  split; [done|]. intros event.
  destruct (is_leader (local_unit self)) eqn:Hleader;
    [|by unfold_handler; destruct (flavor self); rewrite Hleader].
  destruct (_diff self event rel') as [[d r]|e] eqn:Hdiff.
  - rewrite (handler_after_diff _ _ _ _ _ Hleader Hdiff).
    by case_bool_decide; destruct (flavor self).
  - assert (e ≠ JSONDecodeError ∧ e ≠ AttributeError "keys") as [??].
    { unfold _diff in Hdiff.
      destruct (rel_data rel' !! local_app self) as [own|] eqn:Hown; [|by simplify_eq].
      destruct (Hok' own Hown) as [pairs Hold]. rewrite Hold in Hdiff.
      destruct (rel_data rel' !! app event); by simplify_eq. }
    unfold_handler. destruct (flavor self); rewrite Hleader, Hdiff; cbn; split; congruence.
Qed.

Lemma snapshot_stays_decodable_witness :
  decodable (leader_of Database)
    (relation_after
       (_on_relation_changed (leader_of Database) changed_by_app
          (with_data (sample_relation ∅ ∅)
             (<["application" := {[ "database" := "app_db" ]}]>
                (rel_data (sample_relation ∅ ∅)))))).
Proof.
  eapply (snapshot_stays_decodable (leader_of Database) (sample_relation ∅ ∅)).
  - intros own [= <-]. eexists. vm_compute; reflexivity.
  - eapply rtc_l; [apply (step_remote_write _ _ "application" {[ "database" := "app_db" ]});
                   by vm_compute|].
    apply rtc_once. apply step_notification.
Defined.

End FetchAndTraces.
